(** * mcp-server-sqlite: the SQL-operation gateway

    A shallow embedding of [index.ts] (the validator, the error handler and
    the ten tool handlers) and of the wrapper [cli.ts] (argument parsing and
    startup), with the properties of the gateway stated and proved over it.

    - JavaScript strings are sequences of UTF-16 code units ([jsstring]).
    - The regular expressions of [validateSqlQuery] are values of a small
      regex syntax, run by a backtracking matcher ([RegExp.test]).
    - The database driver (better-sqlite3) is an interface ([Engine]); the
      handlers are written in a state-and-exception monad over the process
      state, which records every call made to the driver.
    - Writes to the console are left out. *)

From Stdlib Require Import String Ascii List NArith ZArith Bool Lia.
From Stdlib Require Import DecimalString Permutation Sorted.
Import ListNotations.

Set Implicit Arguments.

(** ** JavaScript strings *)

(** A string is its sequence of UTF-16 code units. *)
Definition jsstring := list N.

(** Code units of an ASCII literal. *)
Definition js (s : string) : jsstring :=
  map N_of_ascii (list_ascii_of_string s).

Module JsString.

(** ECMAScript WhiteSpace and LineTerminator code points: what
    [String.prototype.trim] strips and what the class [\s] matches. *)
Definition isWhiteSpace (c : N) : bool :=
  ((9 <=? c) && (c <=? 13) || (c =? 32) || (c =? 160) || (c =? 5760)
   || (8192 <=? c) && (c <=? 8202) || (c =? 8232) || (c =? 8233)
   || (c =? 8239) || (c =? 8287) || (c =? 12288) || (c =? 65279))%N.

(** LineTerminator: LF, CR, LS, PS. *)
Definition isLineTerminator (c : N) : bool :=
  ((c =? 10) || (c =? 13) || (c =? 8232) || (c =? 8233))%N.

Fixpoint trimStart (s : jsstring) : jsstring :=
  match s with
  | c :: s' => if isWhiteSpace c then trimStart s' else s
  | [] => []
  end.

Definition trimEnd (s : jsstring) : jsstring :=
  rev (trimStart (rev s)).

Definition trim (s : jsstring) : jsstring := trimEnd (trimStart s).

(** Case mapping of one code unit: [A]-[Z] go to [a]-[z].  Of the other
    mappings of [toLowerCase] only two produce an ASCII letter: U+212A gives
    [k], which no pattern of the validator contains, and U+0130 gives [i]
    followed by U+0307, which no pattern can match across.  The verdicts of
    the validator are therefore those under the full Unicode mapping. *)
Definition lowerUnit (c : N) : N :=
  if ((65 <=? c) && (c <=? 90))%N then (c + 32)%N else c.

Definition toLowerCase (s : jsstring) : jsstring := map lowerUnit s.

Fixpoint eqb (a b : jsstring) : bool :=
  match a, b with
  | [], [] => true
  | x :: a', y :: b' => (x =? y)%N && eqb a' b'
  | _, _ => false
  end.

(** [startsWith s p]: [s.startsWith(p)]. *)
Fixpoint startsWith (s p : jsstring) {struct p} : bool :=
  match p, s with
  | [], _ => true
  | x :: p', y :: s' => (x =? y)%N && startsWith s' p'
  | _ :: _, [] => false
  end.

(** [includes s p]: [s.includes(p)]. *)
Fixpoint includes (s p : jsstring) : bool :=
  startsWith s p ||
  match s with
  | _ :: s' => includes s' p
  | [] => false
  end.

(** [Array.prototype.join] on strings. *)
Fixpoint join (sep : jsstring) (l : list jsstring) : jsstring :=
  match l with
  | [] => []
  | [a] => a
  | a :: l' => a ++ sep ++ join sep l'
  end.

(** Decimal rendering of an integer, as a template literal renders it. *)
Definition ofZ (z : Z) : jsstring :=
  js (NilZero.string_of_int (Z.to_int z)).

End JsString.

(** ** Regular expressions *)

Module RegExp.

Inductive cclass : Type :=
| CSpace   (* \s *)
| CDot.    (* .  : anything but a line terminator *)

Definition inClass (k : cclass) (c : N) : bool :=
  match k with
  | CSpace => JsString.isWhiteSpace c
  | CDot => negb (JsString.isLineTerminator c)
  end.

(** The syntax the validator's patterns are written in.  Quantifiers are
    applied to character classes only, as in the source. *)
Inductive regex : Type :=
| Bol                          (* ^ *)
| Lit (s : jsstring)           (* a run of literal characters *)
| Cls (k : cclass)             (* one character of a class *)
| Star (k : cclass)            (* k* *)
| Plus (k : cclass)            (* k+ *)
| Seq (a b : regex)            (* ab *)
| Alt (a b : regex)            (* a|b *)
| NotAhead (a : regex).        (* (?!a) *)

(** Matching [l] literally at the head of [s]. *)
Fixpoint lit (l s : jsstring) : option jsstring :=
  match l, s with
  | [], _ => Some s
  | x :: l', y :: s' => if (x =? y)%N then lit l' s' else None
  | _ :: _, [] => None
  end.

(** Zero or more characters of class [c], every split tried. *)
Fixpoint star (c : cclass) (i : nat) (s : jsstring)
         (k : nat -> jsstring -> bool) : bool :=
  k i s ||
  match s with
  | x :: s' => inClass c x && star c (S i) s' k
  | [] => false
  end.

(** The continuation that accepts whatever remains. *)
Definition accept : nat -> jsstring -> bool := fun _ _ => true.

(** Backtracking matcher in continuation-passing style: [rmatch r i s k]
    holds when [r] matches a prefix of [s] (which starts at index [i] of the
    subject) and [k] accepts the index and the text that remain. *)
Fixpoint rmatch (r : regex) (i : nat) (s : jsstring)
         (k : nat -> jsstring -> bool) : bool :=
  match r with
  | Bol => Nat.eqb i 0 && k i s
  | Lit l =>
      match lit l s with
      | Some s' => k (i + length l) s'
      | None => false
      end
  | Cls c =>
      match s with
      | x :: s' => inClass c x && k (S i) s'
      | [] => false
      end
  | Star c => star c i s k
  | Plus c =>
      match s with
      | x :: s' => inClass c x && star c (S i) s' k
      | [] => false
      end
  | Seq a b => rmatch a i s (fun i' s' => rmatch b i' s' k)
  | Alt a b => rmatch a i s k || rmatch b i s k
  | NotAhead a => negb (rmatch a i s accept) && k i s
  end.

(** Every start position is tried, left to right. *)
Fixpoint search (r : regex) (i : nat) (s : jsstring) : bool :=
  rmatch r i s accept ||
  match s with
  | _ :: s' => search r (S i) s'
  | [] => false
  end.

(** [RegExp.prototype.test] for a pattern without flags. *)
Definition test (r : regex) (s : jsstring) : bool := search r 0 s.

Fixpoint seq (l : list regex) : regex :=
  match l with
  | [] => Lit []
  | [r] => r
  | r :: l' => Seq r (seq l')
  end.

End RegExp.

(** ** The validator *)

Import RegExp.

Record Validation : Type := mkValidation {
  isValid : bool;
  isReadOnly : bool;
  error : option jsstring
}.

Definition allowListed : regex :=
  Alt (Lit (js "table_info"))
      (Alt (Lit (js "schema_version")) (Lit (js "user_version"))).

(** [/pragma\s+(?!table_info|schema_version|user_version)/],
    [/attach\s+database/], [/detach\s+database/]. *)
Definition dangerousPatterns : list regex :=
  [ seq [Lit (js "pragma"); Plus CSpace; NotAhead allowListed];
    seq [Lit (js "attach"); Plus CSpace; Lit (js "database")];
    seq [Lit (js "detach"); Plus CSpace; Lit (js "database")] ].

(** [/^select\s/], [/^with\s.*select\s/], [/^pragma\s+table_info/],
    [/^pragma\s+schema_version/], [/^pragma\s+user_version/]. *)
Definition readOnlyPatterns : list regex :=
  [ seq [Bol; Lit (js "select"); Cls CSpace];
    seq [Bol; Lit (js "with"); Cls CSpace; Star CDot; Lit (js "select");
         Cls CSpace];
    seq [Bol; Lit (js "pragma"); Plus CSpace; Lit (js "table_info")];
    seq [Bol; Lit (js "pragma"); Plus CSpace; Lit (js "schema_version")];
    seq [Bol; Lit (js "pragma"); Plus CSpace; Lit (js "user_version")] ].

Definition dangerousMessage : jsstring :=
  js "Dangerous SQL operation detected".

(** [sql.trim().toLowerCase()]. *)
Definition normalize (sql : jsstring) : jsstring :=
  JsString.toLowerCase (JsString.trim sql).

Definition validateSqlQuery (sql : jsstring) : Validation :=
  let trimmedSql := normalize sql in
  if existsb (fun pattern => test pattern trimmedSql) dangerousPatterns
  then mkValidation false false (Some dangerousMessage)
  else
    let isReadOnly :=
      existsb (fun pattern => test pattern trimmedSql) readOnlyPatterns in
    mkValidation true isReadOnly None.

(** The verdict of the specification's data model. *)
Inductive ValidationVerdict : Type :=
| Rejected (reason : jsstring)
| ReadOnly
| Mutating.

Definition verdict (v : Validation) : ValidationVerdict :=
  if isValid v then (if isReadOnly v then ReadOnly else Mutating)
  else Rejected (match error v with Some e => e | None => js "Invalid SQL" end).

(** ** Values crossing the tool boundary *)

(** JSON values: tool arguments, bound parameters, rows and payloads.  Numbers
    are carried as integers; no handler computes on them. *)
#[local] Unset Elimination Schemes.
Inductive json : Type :=
| JNull
| JBool (b : bool)
| JNum (n : Z)
| JStr (s : jsstring)
| JArr (items : list json)
| JObj (members : list (jsstring * json)).
#[local] Set Elimination Schemes.

(** A thrown [Error]: every value thrown on these paths is an [Error]
    instance, so [handleDatabaseError] reads its [message]. *)
Record JsError : Type := mkError { message : jsstring }.

(** The text of a content block: a plain string, or
    [JSON.stringify(v, null, 2)] of a payload, kept symbolic. *)
Inductive Text : Type :=
| Plain (s : jsstring)
| Stringify (v : json).

(** A tool response: [{ content: [{ type: "text", text }], isError }]. *)
Record ToolResult : Type := mkToolResult {
  content : list Text;
  isError : bool
}.

Definition success (payload : json) : ToolResult :=
  mkToolResult [Stringify payload] false.

(** [handleDatabaseError]. *)
Definition handleDatabaseError (e : JsError) : ToolResult :=
  let errorMessage := message e in
  mkToolResult [Plain (js "Database error: " ++ errorMessage)] true.

(** ** The driver *)

(** What [Statement.run] returns. *)
Record RunResult : Type := mkRunResult {
  changes : Z;
  lastInsertRowid : Z
}.

(** The embedded engine behind better-sqlite3, as the handlers see it.
    [store] is the content of the database; each primitive is
    [prepare(sql)] followed by [run], [all] or [get] with the bound
    parameters, and either throws or returns. *)
Record Engine : Type := mkEngine {
  store : Type;
  (** [new Database(path)] with the directory creation and the four
      configuration pragmas of [initializeDatabase]; [None] on success. *)
  connect : jsstring -> store -> option JsError;
  run : jsstring -> list json -> store -> (JsError + RunResult) * store;
  all : jsstring -> list json -> store -> (JsError + list json) * store;
  get : jsstring -> list json -> store -> (JsError + option json) * store;
  (** The statements [Database.transaction] runs around its body: [BEGIN]
      before, [COMMIT] after, [ROLLBACK] to undo. *)
  txBegin : store -> option JsError * store;
  txCommit : store -> option JsError * store;
  txRollback : store -> option JsError * store;
  inTransaction : store -> bool;
  (** The statements it runs instead when the connection is already inside
      a transaction: [SAVEPOINT] before, [RELEASE] after, [ROLLBACK TO] to
      undo, all on the wrapper's own savepoint name. *)
  txSavepoint : store -> option JsError * store;
  txRelease : store -> option JsError * store;
  txRollbackTo : store -> option JsError * store
}.

(** One call to the driver. *)
Inductive DriverCall : Type :=
| COpen (path : jsstring)
| CRun (sql : jsstring) (params : list json)
| CAll (sql : jsstring) (params : list json)
| CGet (sql : jsstring) (params : list json)
| CBegin
| CCommit
| CRollback
| CSavepoint
| CRelease
| CRollbackTo
| CClose.

(** The statement a call hands to the driver, if any. *)
Definition statementOf (c : DriverCall) : option jsstring :=
  match c with
  | CRun sql _ | CAll sql _ | CGet sql _ => Some sql
  | _ => None
  end.

(** ** The process *)

(** Module-level state of [index.ts] together with the database and the
    record of driver calls. *)
Record Process (E : Engine) : Type := mkProcess {
  SQLITE_DB_PATH : option jsstring;   (* process.env.SQLITE_DB_PATH *)
  DEFAULT_DB_PATH : jsstring;         (* const, fixed when index.ts loads *)
  db : bool;                          (* [db !== null] *)
  disk : store E;
  calls : list DriverCall
}.

Arguments mkProcess {E}.
Arguments SQLITE_DB_PATH {E}.
Arguments DEFAULT_DB_PATH {E}.
Arguments db {E}.
Arguments disk {E}.
Arguments calls {E}.

(** ** Handlers as state-and-exception computations *)

Inductive Result (A : Type) : Type :=
| Ret (a : A)
| Throw (e : JsError).

Arguments Ret {A}.
Arguments Throw {A}.

Definition M (E : Engine) (A : Type) : Type :=
  Process E -> Result A * Process E.

Section Monad.
Context {E : Engine}.

Definition ret {A} (a : A) : M E A := fun p => (Ret a, p).

Definition throw {A} (e : JsError) : M E A := fun p => (Throw e, p).

Definition bind {A B} (m : M E A) (f : A -> M E B) : M E B :=
  fun p =>
    match m p with
    | (Ret a, p') => f a p'
    | (Throw e, p') => (Throw e, p')
    end.

(** [try { body } catch (error) { handler }]. *)
Definition tryCatch {A} (body : M E A) (handler : JsError -> M E A) : M E A :=
  fun p =>
    match body p with
    | (Ret a, p') => (Ret a, p')
    | (Throw e, p') => handler e p'
    end.

Definition record (c : DriverCall) (p : Process E) : Process E :=
  mkProcess (SQLITE_DB_PATH p) (DEFAULT_DB_PATH p) (db p) (disk p)
            (calls p ++ [c]).

Definition withDisk (s : store E) (p : Process E) : Process E :=
  mkProcess (SQLITE_DB_PATH p) (DEFAULT_DB_PATH p) (db p) s (calls p).

Definition withDb (b : bool) (p : Process E) : Process E :=
  mkProcess (SQLITE_DB_PATH p) (DEFAULT_DB_PATH p) b (disk p) (calls p).

(** Lifting a primitive of the engine: the call is recorded, the database
    takes its new content, and an error is thrown. *)
Definition driver {A} (c : DriverCall)
           (f : store E -> (JsError + A) * store E) : M E A :=
  fun p =>
    let '(r, s) := f (disk p) in
    let p' := withDisk s (record c p) in
    match r with
    | inl e => (Throw e, p')
    | inr a => (Ret a, p')
    end.

Definition control (c : DriverCall)
           (f : store E -> option JsError * store E) : M E unit :=
  driver c (fun s =>
    match f s with
    | (Some e, s') => (inl e, s')
    | (None, s') => (inr tt, s')
    end).

(** [database.prepare(sql).run(...params)] and its siblings. *)
Definition prepareRun (sql : jsstring) (params : list json) : M E RunResult :=
  driver (CRun sql params) (run E sql params).

Definition prepareAll (sql : jsstring) (params : list json) : M E (list json) :=
  driver (CAll sql params) (all E sql params).

Definition prepareGet (sql : jsstring) (params : list json)
  : M E (option json) :=
  driver (CGet sql params) (get E sql params).

(** [initializeDatabase]: any failure is logged and thrown again. *)
Definition initializeDatabase (dbPath : jsstring) : M E unit :=
  tryCatch
    (driver (COpen dbPath) (fun s =>
       match connect E dbPath s with
       | Some e => (inl e, s)
       | None => (inr tt, s)
       end))
    (fun error => throw error).

(** [getDatabase]: the connection is opened on first use and kept. *)
Definition getDatabase : M E unit :=
  fun p =>
    if db p then (Ret tt, p)
    else
      match initializeDatabase (DEFAULT_DB_PATH p) p with
      | (Ret _, p') => (Ret tt, withDb true p')
      | (Throw e, p') => (Throw e, p')
      end.

(** The handlers of [SIGINT] and [SIGTERM]: the connection, if one is held,
    is closed, and the process exits with the status returned. *)
Definition shutdown (p : Process E) : Process E * Z :=
  (if db p then record CClose p else p, 0%Z).

(** What [Database.transaction] runs before its body, after it, and to undo
    it: a transaction of its own, or a savepoint when the connection is
    already inside a transaction ([nested]). *)
Definition txBefore (nested : bool) : store E -> option JsError * store E :=
  if nested then txSavepoint E else txBegin E.

Definition txAfter (nested : bool) : store E -> option JsError * store E :=
  if nested then txRelease E else txCommit E.

Definition txUndo (nested : bool) : store E -> option JsError * store E :=
  if nested then txRollbackTo E else txRollback E.

Definition cBefore (nested : bool) : DriverCall :=
  if nested then CSavepoint else CBegin.

Definition cAfter (nested : bool) : DriverCall :=
  if nested then CRelease else CCommit.

Definition cUndo (nested : bool) : DriverCall :=
  if nested then CRollbackTo else CRollback.

(** The wrapped function of better-sqlite3, its three statements chosen:
    the opening statement, the body, the closing statement; on an exception,
    if the connection is still inside a transaction, the undoing statement,
    followed by the closing one when working with a savepoint; and the
    exception is thrown again. *)
Definition wrapTransaction {A} (nested : bool) (fn : M E A) : M E A :=
  bind (control (cBefore nested) (txBefore nested)) (fun _ =>
  tryCatch
    (bind fn (fun result =>
     bind (control (cAfter nested) (txAfter nested)) (fun _ =>
     ret result)))
    (fun ex q =>
       if inTransaction E (disk q)
       then bind (control (cUndo nested) (txUndo nested)) (fun _ =>
            bind (if nested
                  then control (cAfter nested) (txAfter nested)
                  else ret tt) (fun _ =>
            throw ex)) q
       else throw ex q)).

(** [database.transaction(fn)(...)]: [db.inTransaction], read when the
    function is called, chooses between [BEGIN]/[COMMIT]/[ROLLBACK] and
    [SAVEPOINT]/[RELEASE]/[ROLLBACK TO]. *)
Definition transaction {A} (fn : M E A) : M E A :=
  fun p => wrapTransaction (inTransaction E (disk p)) fn p.

End Monad.

Declare Scope js_scope.
Delimit Scope js_scope with js.
Notation "x <- m ;; k" := (bind m (fun x => k))
  (at level 61, m at next level, right associativity) : js_scope.
Notation "m ;; k" := (bind m (fun _ => k))
  (at level 61, right associativity) : js_scope.
Notation "'try' b 'catch' h" := (tryCatch b h)
  (at level 62, b at level 61, h at level 200) : js_scope.

(** ** JavaScript objects used as maps *)

Module JsObject.

(** The own enumerable string-keyed properties, in the order they were
    created (for an object read from JSON: the order of the members). *)
Definition t : Type := list (jsstring * json).

Fixpoint digits (k : jsstring) (acc : N) : option N :=
  match k with
  | [] => Some acc
  | c :: k' =>
      if ((48 <=? c) && (c <=? 57))%N
      then digits k' (acc * 10 + (c - 48))%N
      else None
  end.

(** An array index is a canonical numeric string below [2^32 - 1]. *)
Definition arrayIndex (k : jsstring) : option N :=
  match k with
  | [] => None
  | [48%N] => Some 0%N
  | 48%N :: _ => None
  | _ =>
      match digits k 0 with
      | Some n => if (n <? 4294967295)%N then Some n else None
      | None => None
      end
  end.

(** Insertion into a list sorted by ascending index. *)
Fixpoint insertIndexed (e : N * (jsstring * json))
         (l : list (N * (jsstring * json))) : list (N * (jsstring * json)) :=
  match l with
  | [] => [e]
  | x :: l' =>
      if (fst e <? fst x)%N then e :: l else x :: insertIndexed e l'
  end.

Fixpoint indexed (o : t) : list (N * (jsstring * json)) :=
  match o with
  | [] => []
  | (k, v) :: o' =>
      match arrayIndex k with
      | Some n => insertIndexed (n, (k, v)) (indexed o')
      | None => indexed o'
      end
  end.

Definition named (o : t) : t :=
  filter (fun kv => match arrayIndex (fst kv) with
                    | Some _ => false
                    | None => true
                    end) o.

(** OrdinaryOwnPropertyKeys: array indices in ascending numeric order, then
    the other keys in creation order. *)
Definition entries (o : t) : t := map snd (indexed o) ++ named o.

(** [Object.keys] and [Object.values]. *)
Definition keys (o : t) : list jsstring := map fst (entries o).
Definition values (o : t) : list json := map snd (entries o).

(** Property read: [o[k]], [None] for [undefined]. *)
Fixpoint lookup (k : jsstring) (o : t) : option json :=
  match o with
  | [] => None
  | (k', v) :: o' => if JsString.eqb k k' then Some v else lookup k o'
  end.

End JsObject.

(** ** Coercions of the language *)

(** Truthiness of a value that may be [undefined]. *)
Definition truthy (v : option json) : bool :=
  match v with
  | None | Some JNull | Some (JBool false) | Some (JNum 0%Z) | Some (JStr [])
      => false
  | Some _ => true
  end.

(** [String(v)] for arrays' elements and template literals. *)
Fixpoint toStr (v : json) : jsstring :=
  match v with
  | JNull => js "null"
  | JBool true => js "true"
  | JBool false => js "false"
  | JNum n => JsString.ofZ n
  | JStr s => s
  | JArr items =>
      JsString.join (js ",")
        (map (fun x => match x with JNull => [] | _ => toStr x end) items)
  | JObj _ => js "[object Object]"
  end.

Definition template (v : option json) : jsstring :=
  match v with
  | None => js "undefined"
  | Some x => toStr x
  end.

(** Property of a row, [undefined] on anything but an object. *)
Definition prop (k : string) (row : json) : option json :=
  match row with
  | JObj members => JsObject.lookup (js k) members
  | _ => None
  end.

(** [formatTableInfo]. *)
Definition formatTableInfo (columns : list json) : jsstring :=
  JsString.join (js "
")
    (map (fun col =>
       template (prop "name" col) ++ js ": " ++ template (prop "type" col)
       ++ (if truthy (prop "notnull" col) then js " NOT NULL" else [])
       ++ (if truthy (prop "pk" col) then js " PRIMARY KEY" else [])
       ++ (if truthy (prop "dflt_value" col)
           then js " DEFAULT " ++ template (prop "dflt_value" col) else []))
       columns).

(** ** The tool handlers *)

Section Tools.
Context {E : Engine}.
Local Open Scope js_scope.

Definition caught : JsError -> M E ToolResult :=
  fun error => ret (handleDatabaseError error).

(** [validation.error || "Invalid SQL"]. *)
Definition errorOr (e : option jsstring) (dflt : jsstring) : jsstring :=
  match e with
  | Some (c :: m) => c :: m
  | _ => dflt
  end.

Definition readOnlyOnly : jsstring :=
  js "Only read-only queries are allowed. Use 'execute' tool for write operations.".

(** Tool [query]. *)
Definition queryTool (sql : jsstring) : M E ToolResult :=
  try (
    let validation := validateSqlQuery sql in
    if negb (isValid validation) then
      ret (handleDatabaseError
             (mkError (errorOr (error validation) (js "Invalid SQL"))))
    else if negb (isReadOnly validation) then
      ret (handleDatabaseError (mkError readOnlyOnly))
    else
      getDatabase ;;
      results <- prepareAll sql [] ;;
      ret (success (JArr results)))
  catch caught.

(** Tool [execute]. *)
Definition executeTool (sql : jsstring) : M E ToolResult :=
  try (
    let validation := validateSqlQuery sql in
    if negb (isValid validation) then
      ret (handleDatabaseError
             (mkError (errorOr (error validation) (js "Invalid SQL"))))
    else
      getDatabase ;;
      result <- prepareRun sql [] ;;
      ret (success (JObj
        [ (js "changes", JNum (changes result));
          (js "lastInsertRowid", JNum (lastInsertRowid result));
          (js "message",
           JStr (js "Statement executed successfully. "
                 ++ JsString.ofZ (changes result)
                 ++ js " row(s) affected.")) ])))
  catch caught.

Definition tableExistsSql : jsstring :=
  js "
          SELECT name FROM sqlite_master
          WHERE type='table' AND name=?
        ".

Definition tableInfoSql (tableName : jsstring) : jsstring :=
  js "PRAGMA table_info(" ++ tableName ++ js ")".
Definition indexListSql (tableName : jsstring) : jsstring :=
  js "PRAGMA index_list(" ++ tableName ++ js ")".
Definition foreignKeyListSql (tableName : jsstring) : jsstring :=
  js "PRAGMA foreign_key_list(" ++ tableName ++ js ")".

Definition doesNotExist (tableName : jsstring) : jsstring :=
  js "Table '" ++ tableName ++ js "' does not exist".

(** Tool [describe-table]. *)
Definition describeTableTool (tableName : jsstring) : M E ToolResult :=
  try (
    getDatabase ;;
    tableExists <- prepareGet tableExistsSql [JStr tableName] ;;
    if negb (truthy tableExists) then
      ret (handleDatabaseError (mkError (doesNotExist tableName)))
    else
      columns <- prepareAll (tableInfoSql tableName) [] ;;
      indexes <- prepareAll (indexListSql tableName) [] ;;
      foreignKeys <- prepareAll (foreignKeyListSql tableName) [] ;;
      ret (success (JObj
        [ (js "tableName", JStr tableName);
          (js "columns", JArr columns);
          (js "indexes", JArr indexes);
          (js "foreignKeys", JArr foreignKeys);
          (js "columnCount", JNum (Z.of_nat (length columns)));
          (js "formattedColumns", JStr (formatTableInfo columns)) ])))
  catch caught.

Definition listTablesSql : jsstring :=
  js "
          SELECT name, sql FROM sqlite_master
          WHERE type='table' AND name NOT LIKE 'sqlite_%'
          ORDER BY name
        ".

(** Tool [list-tables]. *)
Definition listTablesTool : M E ToolResult :=
  try (
    getDatabase ;;
    tables <- prepareAll listTablesSql [] ;;
    ret (success (JArr tables)))
  catch caught.

(** One element of [columns] in the input of [create-table]; the optional
    fields are [None] when omitted. *)
Record ColumnSpec : Type := mkColumn {
  name : jsstring;
  type : jsstring;
  primaryKey : option bool;
  notNull : option bool;
  unique : option bool;
  defaultValue : option jsstring
}.

(** [if (col.flag)] on an optional boolean, [if (col.defaultValue)] on an
    optional string. *)
Definition flagSet (f : option bool) : bool :=
  match f with Some true => true | _ => false end.

Definition textSet (t : option jsstring) : bool :=
  match t with Some (_ :: _) => true | _ => false end.

Definition columnDefinition (col : ColumnSpec) : jsstring :=
  let def := name col ++ js " " ++ type col in
  let def := if flagSet (primaryKey col) then def ++ js " PRIMARY KEY" else def in
  let def := if flagSet (notNull col) then def ++ js " NOT NULL" else def in
  let def := if flagSet (unique col) then def ++ js " UNIQUE" else def in
  let def := if textSet (defaultValue col)
             then def ++ js " DEFAULT " ++ template (option_map JStr (defaultValue col))
             else def in
  def.

Definition createStatement (name : jsstring) (columns : list ColumnSpec)
           (ifNotExists : bool) : jsstring :=
  let columnDefinitions := map columnDefinition columns in
  js "CREATE TABLE " ++ (if ifNotExists then js "IF NOT EXISTS " else [])
    ++ name ++ js " (" ++ JsString.join (js ", ") columnDefinitions ++ js ")".

Definition createTableHandler (name : jsstring) (columns : list ColumnSpec)
           (ifNotExists : bool) : M E ToolResult :=
  try (
    let createStatement := createStatement name columns ifNotExists in
    getDatabase ;;
    result <- prepareRun createStatement [] ;;
    ret (success (JObj
      [ (js "message", JStr (js "Table '" ++ name ++ js "' created successfully"));
        (js "sql", JStr createStatement);
        (js "changes", JNum (changes result)) ])))
  catch caught.

(** [z.boolean().optional().default(true)]: an omitted flag parses to
    [true]. *)
Definition defaultTrue (flag : option bool) : bool :=
  match flag with
  | Some b => b
  | None => true
  end.

(** Tool [create-table]: the input is parsed by its schema, then handled. *)
Definition createTableTool (name : jsstring) (columns : list ColumnSpec)
           (ifNotExists : option bool) : M E ToolResult :=
  createTableHandler name columns (defaultTrue ifNotExists).

Definition dropStatement (name : jsstring) (ifExists : bool) : jsstring :=
  js "DROP TABLE " ++ (if ifExists then js "IF EXISTS " else []) ++ name.

(** Tool [drop-table]. *)
Definition dropTableTool (name : jsstring) (ifExists : option bool)
  : M E ToolResult :=
  try (
    let dropStatement := dropStatement name (defaultTrue ifExists) in
    getDatabase ;;
    result <- prepareRun dropStatement [] ;;
    ret (success (JObj
      [ (js "message", JStr (js "Table '" ++ name ++ js "' dropped successfully"));
        (js "sql", JStr dropStatement);
        (js "changes", JNum (changes result)) ])))
  catch caught.

Definition insertStatement (table : jsstring) (data : JsObject.t) : jsstring :=
  let columns := JsObject.keys data in
  let placeholders := JsString.join (js ", ") (map (fun _ => js "?") columns) in
  js "INSERT INTO " ++ table ++ js " (" ++ JsString.join (js ", ") columns
    ++ js ") VALUES (" ++ placeholders ++ js ")".

(** Tool [insert-record]. *)
Definition insertRecordTool (table : jsstring) (data : JsObject.t)
  : M E ToolResult :=
  try (
    let values := JsObject.values data in
    let insertStatement := insertStatement table data in
    getDatabase ;;
    result <- prepareRun insertStatement values ;;
    ret (success (JObj
      [ (js "message", JStr (js "Record inserted successfully"));
        (js "insertedId", JNum (lastInsertRowid result));
        (js "changes", JNum (changes result));
        (js "sql", JStr insertStatement) ])))
  catch caught.

Definition updateStatement (table : jsstring) (data : JsObject.t)
           (whereText : jsstring) : jsstring :=
  let setClause :=
    JsString.join (js ", ")
      (map (fun key => key ++ js " = ?") (JsObject.keys data)) in
  js "UPDATE " ++ table ++ js " SET " ++ setClause ++ js " WHERE " ++ whereText.

(** Tool [update-record]. *)
Definition updateRecordTool (table : jsstring) (data : JsObject.t)
           (whereText : jsstring) : M E ToolResult :=
  try (
    let values := JsObject.values data in
    let updateStatement := updateStatement table data whereText in
    getDatabase ;;
    result <- prepareRun updateStatement values ;;
    ret (success (JObj
      [ (js "message", JStr (js "Records updated successfully"));
        (js "changes", JNum (changes result));
        (js "sql", JStr updateStatement) ])))
  catch caught.

Definition deleteStatement (table whereText : jsstring) : jsstring :=
  js "DELETE FROM " ++ table ++ js " WHERE " ++ whereText.

(** Tool [delete-record]. *)
Definition deleteRecordTool (table whereText : jsstring) : M E ToolResult :=
  try (
    let deleteStatement := deleteStatement table whereText in
    getDatabase ;;
    result <- prepareRun deleteStatement [] ;;
    ret (success (JObj
      [ (js "message", JStr (js "Records deleted successfully"));
        (js "changes", JNum (changes result));
        (js "sql", JStr deleteStatement) ])))
  catch caught.

(** The body handed to [database.transaction]: the loop over [stmts],
    [results] growing with each statement run. *)
Fixpoint runStatements (stmts : list jsstring) (results : list json)
  : M E (list json) :=
  match stmts with
  | [] => ret results
  | stmt :: rest =>
      let validation := validateSqlQuery stmt in
      if negb (isValid validation) then
        throw (mkError (js "Invalid SQL: "
                        ++ template (option_map JStr (error validation))))
      else
        result <- prepareRun stmt [] ;;
        runStatements rest
          (results ++ [JObj [ (js "sql", JStr stmt);
                              (js "changes", JNum (changes result));
                              (js "lastInsertRowid",
                               JNum (lastInsertRowid result)) ]])
  end.

(** Tool [transaction].  The connection is acquired before the [try]. *)
Definition transactionTool (statements : list jsstring) : M E ToolResult :=
  getDatabase ;;
  (try (
     results <- transaction (runStatements statements []) ;;
     ret (success (JObj
       [ (js "message", JStr (js "Transaction completed successfully"));
         (js "results", JArr results);
         (js "totalStatements", JNum (Z.of_nat (length statements))) ])))
   catch caught).

End Tools.

(** ** Startup: [cli.ts] *)

Module Cli.

Record Config : Type := mkConfig {
  showHelp : bool;
  showVersion : bool;
  dbPath : jsstring
}.

(** [process.env.SQLITE_DB_PATH || "./database.db"]. *)
Definition envOrDefault (env : option jsstring) : jsstring :=
  match env with
  | Some (c :: path) => c :: path
  | _ => js "./database.db"
  end.

(** What [parseArgs] comes to: a configuration, or [process.exit(code)]. *)
Inductive Parsed : Type :=
| Parse (config : Config)
| ParseExit (code : Z).

(** The loop of [parseArgs], from the argument at hand onwards. *)
Fixpoint parseLoop (args : list jsstring) (config : Config) : Parsed :=
  match args with
  | [] => Parse config
  | arg :: rest =>
      if JsString.eqb arg (js "--help") || JsString.eqb arg (js "-h") then
        parseLoop rest (mkConfig true (showVersion config) (dbPath config))
      else if JsString.eqb arg (js "--version") || JsString.eqb arg (js "-v")
      then
        parseLoop rest (mkConfig (showHelp config) true (dbPath config))
      else if JsString.eqb arg (js "--db") || JsString.eqb arg (js "--database")
      then
        match rest with
        | path :: rest' =>
            parseLoop rest'
              (mkConfig (showHelp config) (showVersion config) path)
        | [] => ParseExit 1
        end
      else if JsString.startsWith arg (js "-") then ParseExit 1
      else
        parseLoop rest (mkConfig (showHelp config) (showVersion config) arg)
  end.

Definition parseArgs (args : list jsstring) (env : option jsstring) : Parsed :=
  parseLoop args (mkConfig false false (envOrDefault env)).

(** How the wrapper ends: the process has exited, the server runs, or, the
    file not being the entry script, nothing was run. *)
Inductive Startup (E : Engine) : Type :=
| Exited (code : Z)
| Serving (p : Process E)
| Imported.

Arguments Exited {E}.
Arguments Serving {E}.
Arguments Imported {E}.

(** [async function cli()], with arguments [args], the environment variable
    at [env] and the database at [s].  The import of [index.js] has been
    evaluated first, which fixes [DEFAULT_DB_PATH] from the environment as it
    is then; [cli] parses, may exit, stores the chosen path in the
    environment and awaits [main()], which registers the handlers, connects
    the transport and opens no database.  [started] is what [main()] comes
    to: [None] when it returns, its error when it throws, upon which the
    [catch] ends the process with status 1. *)
Definition cliWith {E : Engine} (started : option JsError)
           (args : list jsstring) (env : option jsstring) (s : store E)
  : Startup E :=
  let DEFAULT_DB_PATH := envOrDefault env in
  match parseArgs args env with
  | ParseExit code => Exited code
  | Parse config =>
      if showHelp config then Exited 0
      else if showVersion config then Exited 0
      else
        let p := mkProcess (Some (dbPath config)) DEFAULT_DB_PATH false s [] in
        match started with
        | None => Serving p
        | Some _ => Exited 1
        end
  end.

(** The module [cli.ts] evaluated: [cli()] is called only when the file is
    the entry script, [direct] standing for
    [import.meta.url === `file://${process.argv[1]}`].  Nothing in [cli()]
    rejects, so the [catch] chained on the call is not reached. *)
Definition script {E : Engine} (direct : bool) (started : option JsError)
           (args : list jsstring) (env : option jsstring) (s : store E)
  : Startup E :=
  if direct then cliWith started args env s else Imported.

(** The wrapper run as the entry script, [main()] starting the server. *)
Definition cli {E : Engine} (args : list jsstring) (env : option jsstring)
           (s : store E) : Startup E :=
  script true None args env s.

(** The path of the first connection the process opens, if any. *)
Fixpoint openedPath (calls : list DriverCall) : option jsstring :=
  match calls with
  | [] => None
  | COpen path :: _ => Some path
  | _ :: rest => openedPath rest
  end.

End Cli.

(** ** Splitting text: [String.prototype.split] on one separator *)

Module JsSplit.

(** [s.split(sep)] for a separator of one code unit: the pieces between the
    separators, empty pieces included; one empty piece for the empty text. *)
Fixpoint split (sep : N) (s : jsstring) : list jsstring :=
  match s with
  | [] => [[]]
  | c :: s' =>
      if (c =? sep)%N then [] :: split sep s'
      else
        match split sep s' with
        | piece :: pieces => (c :: piece) :: pieces
        | [] => [[c]]
        end
  end.

End JsSplit.

(** ** A driver double for the examples *)

(** A recording stand-in for the engine.  It keeps the names of the tables,
    the statements applied, the rows inserted, and a stack of what
    [BEGIN] and [SAVEPOINT] saved.  It understands [BEGIN], [COMMIT] and
    [ROLLBACK] given as statements, and the one-row [INSERT] of
    [insert-record]; a statement on [nonexistent_table] fails, a path under
    [/proc/] cannot be opened. *)
Module Double.

(** A row: its table, its identifier and its values by column. *)
Definition Row : Type := (jsstring * (Z * JsObject.t))%type.

(** What a rollback gives back: the statements applied and the rows. *)
Definition Snapshot : Type := (list jsstring * list Row)%type.

Record Store : Type := mkDouble {
  tables : list jsstring;
  applied : list jsstring;
  rows : list Row;
  saved : list Snapshot
}.

(** A store without rows: outside a transaction, or inside one begun when
    [before] had been applied. *)
Definition mkStore (tables applied : list jsstring)
           (saved : option (list jsstring)) : Store :=
  mkDouble tables applied []
           match saved with
           | Some before => [(before, [])]
           | None => []
           end.

Definition connect (path : jsstring) (s : Store) : option JsError :=
  if JsString.startsWith path (js "/proc/")
  then Some (mkError (js "unable to open database file"))
  else None.

Definition inTransaction (s : Store) : bool :=
  match saved s with
  | [] => false
  | _ :: _ => true
  end.

(** The oldest snapshot: what [BEGIN] saved. *)
Fixpoint bottom (l : list Snapshot) : option Snapshot :=
  match l with
  | [] => None
  | [x] => Some x
  | _ :: l' => bottom l'
  end.

Definition txBegin (s : Store) : option JsError * Store :=
  match saved s with
  | [] => (None, mkDouble (tables s) (applied s) (rows s)
                          [(applied s, rows s)])
  | _ :: _ =>
      (Some (mkError (js "cannot start a transaction within a transaction")),
       s)
  end.

Definition txCommit (s : Store) : option JsError * Store :=
  match saved s with
  | [] => (Some (mkError (js "cannot commit - no transaction is active")), s)
  | _ :: _ => (None, mkDouble (tables s) (applied s) (rows s) [])
  end.

Definition txRollback (s : Store) : option JsError * Store :=
  match bottom (saved s) with
  | Some (before, rowsBefore) =>
      (None, mkDouble (tables s) before rowsBefore [])
  | None => (Some (mkError (js "cannot rollback - no transaction is active")), s)
  end.

Definition txSavepoint (s : Store) : option JsError * Store :=
  (None, mkDouble (tables s) (applied s) (rows s)
                  ((applied s, rows s) :: saved s)).

Definition txRelease (s : Store) : option JsError * Store :=
  match saved s with
  | [] => (Some (mkError (js "no such savepoint")), s)
  | _ :: rest => (None, mkDouble (tables s) (applied s) (rows s) rest)
  end.

Definition txRollbackTo (s : Store) : option JsError * Store :=
  match saved s with
  | [] => (Some (mkError (js "no such savepoint")), s)
  | (before, rowsBefore) :: rest =>
      (None, mkDouble (tables s) before rowsBefore
                      ((before, rowsBefore) :: rest))
  end.

(** The first occurrence of [pat] in [s]: what stands before and after. *)
Fixpoint breakOn (pat s : jsstring) : option (jsstring * jsstring) :=
  match RegExp.lit pat s with
  | Some rest => Some ([], rest)
  | None =>
      match s with
      | [] => None
      | c :: s' =>
          match breakOn pat s' with
          | Some (before, after) => Some (c :: before, after)
          | None => None
          end
      end
  end.

(** Table and columns of [INSERT INTO <table> (<cols>) VALUES (...)]. *)
Definition parseInsert (sql : jsstring) : option (jsstring * list jsstring) :=
  match RegExp.lit (js "INSERT INTO ") sql with
  | Some afterInto =>
      match breakOn (js " (") afterInto with
      | Some (table, afterTable) =>
          match breakOn (js ") VALUES (") afterTable with
          | Some (columns, _) =>
              Some (table,
                    map JsString.trimStart (JsSplit.split 44 columns))
          | None => None
          end
      | None => None
      end
  | None => None
  end.

(** A transaction statement given through [run]. *)
Definition controlStatement (sql : jsstring)
  : option (Store -> option JsError * Store) :=
  if JsString.eqb (normalize sql) (js "begin") then Some txBegin
  else if JsString.eqb (normalize sql) (js "commit") then Some txCommit
  else if JsString.eqb (normalize sql) (js "rollback") then Some txRollback
  else None.

Definition run (sql : jsstring) (params : list json) (s : Store)
  : (JsError + RunResult) * Store :=
  match controlStatement sql with
  | Some statement =>
      match statement s with
      | (Some e, s') => (inl e, s')
      | (None, s') =>
          (inr (mkRunResult 0 (Z.of_nat (length (applied s')))), s')
      end
  | None =>
      if JsString.includes sql (js "nonexistent_table")
      then (inl (mkError (js "no such table: nonexistent_table")), s)
      else
        let rowid := Z.of_nat (S (length (applied s))) in
        (inr (mkRunResult 1 rowid),
         mkDouble (tables s) (applied s ++ [sql])
                  (rows s
                   ++ match parseInsert sql with
                      | Some (table, columns) =>
                          [(table, (rowid, combine columns params))]
                      | None => []
                      end)
                  (saved s))
  end.

Definition all (sql : jsstring) (params : list json) (s : Store)
  : (JsError + list json) * Store := (inr [], s).

Definition get (sql : jsstring) (params : list json) (s : Store)
  : (JsError + option json) * Store :=
  match params with
  | [JStr n] =>
      if existsb (JsString.eqb n) (tables s)
      then (inr (Some (JObj [(js "name", JStr n)])), s)
      else (inr None, s)
  | _ => (inr None, s)
  end.

Definition engine : Engine :=
  mkEngine connect run all get txBegin txCommit txRollback inTransaction
           txSavepoint txRelease txRollbackTo.

(** The rows of a table, in the order they were inserted. *)
Definition rowsOf (s : Store) (table : jsstring) : list (Z * JsObject.t) :=
  map snd (filter (fun row => JsString.eqb (fst row) table) (rows s)).

(** What [ROLLBACK] gives back. *)
Definition restore (s : Store) : Store :=
  match bottom (saved s) with
  | Some (before, rowsBefore) => mkDouble (tables s) before rowsBefore []
  | None => s
  end.

(** A database with one table [t] and an open connection. *)
Definition opened : Process engine :=
  mkProcess (E:=engine) None (js "./database.db") true
            (mkStore [js "t"] [] None) [].

(** The same database before any tool has run. *)
Definition fresh (path : jsstring) : Process engine :=
  mkProcess (E:=engine) None path false (mkStore [js "t"] [] None) [].

End Double.

(** * Specification predicates *)

(** ** The meaning of the patterns *)

(** [Lang r i w rest]: at index [i] of the subject, [r] matches the text [w]
    when [rest] is what follows it. *)
Fixpoint Lang (r : regex) (i : nat) (w rest : jsstring) : Prop :=
  match r with
  | Bol => w = [] /\ i = 0
  | Lit l => w = l
  | Cls c => exists x, w = [x] /\ inClass c x = true
  | Star c => Forall (fun x => inClass c x = true) w
  | Plus c => w <> [] /\ Forall (fun x => inClass c x = true) w
  | Seq a b =>
      exists w1 w2, w = w1 ++ w2 /\ Lang a i w1 (w2 ++ rest)
                    /\ Lang b (i + length w1) w2 rest
  | Alt a b => Lang a i w rest \/ Lang b i w rest
  | NotAhead a =>
      w = [] /\ ~ (exists w' rest', rest = w' ++ rest' /\ Lang a i w' rest')
  end.

(** ** Shapes of SQL text *)

(** A non-empty run of whitespace. *)
Definition spaces (ws : jsstring) : Prop :=
  ws <> [] /\ Forall (fun c => inClass CSpace c = true) ws.

Definition allowedNames : list jsstring :=
  [js "table_info"; js "schema_version"; js "user_version"].

(** The text contains, anywhere, [pragma] and whitespace not followed by an
    allow-listed name, or [attach]/[detach], whitespace and [database]. *)
Definition DangerousText (t : jsstring) : Prop :=
  (exists pre ws post,
      t = pre ++ js "pragma" ++ ws ++ post /\ spaces ws
      /\ forall n, In n allowedNames -> JsString.startsWith post n = false)
  \/ (exists pre ws post,
         t = pre ++ js "attach" ++ ws ++ js "database" ++ post /\ spaces ws)
  \/ (exists pre ws post,
         t = pre ++ js "detach" ++ ws ++ js "database" ++ post /\ spaces ws).

(** The text starts with [select] and a whitespace character, or with
    [with], a whitespace character and, before any line terminator,
    [select] and a whitespace character, or with [pragma], whitespace and
    an allow-listed name. *)
Definition ReadOnlyText (t : jsstring) : Prop :=
  (exists c rest, t = js "select" ++ c :: rest /\ inClass CSpace c = true)
  \/ (exists c mid c' rest,
         t = js "with" ++ c :: mid ++ js "select" ++ c' :: rest
         /\ inClass CSpace c = true
         /\ Forall (fun x => inClass CDot x = true) mid
         /\ inClass CSpace c' = true)
  \/ (exists ws n rest,
         t = js "pragma" ++ ws ++ n ++ rest /\ spaces ws
         /\ In n allowedNames).

(** ** Statements of the builders, in the words of the specification *)

(** A clause that is emitted only when its flag is set. *)
Definition clause (present : bool) (text : jsstring) : jsstring :=
  if present then text else [].

(** The column clause in the words of the specification: name and type, then
    [PRIMARY KEY], [NOT NULL], [UNIQUE] and [DEFAULT <value>], in that order,
    for what is set.  A flag is set when it is given as [true], a default
    value when it is given and not empty. *)
Definition columnClause (col : ColumnSpec) : jsstring :=
  name col ++ js " " ++ type col
  ++ clause (flagSet (primaryKey col)) (js " PRIMARY KEY")
  ++ clause (flagSet (notNull col)) (js " NOT NULL")
  ++ clause (flagSet (unique col)) (js " UNIQUE")
  ++ match defaultValue col with
     | Some (c :: v) => js " DEFAULT " ++ c :: v
     | _ => []
     end.

(** [CREATE TABLE [IF NOT EXISTS] <name> (...)], the option left out only
    when the request says [ifNotExists: false]. *)
Definition createTableText (name : jsstring) (columns : list ColumnSpec)
           (ifNotExists : option bool) : jsstring :=
  js "CREATE TABLE "
  ++ match ifNotExists with Some false => [] | _ => js "IF NOT EXISTS " end
  ++ name ++ js " (" ++ JsString.join (js ", ") (map columnClause columns)
  ++ js ")".

(** [INSERT INTO <table> (<cols>) VALUES (<placeholders>)] for a list of
    columns, one [?] for each. *)
Definition insertText (table : jsstring) (columns : list jsstring) : jsstring :=
  js "INSERT INTO " ++ table ++ js " (" ++ JsString.join (js ", ") columns
  ++ js ") VALUES ("
  ++ JsString.join (js ", ") (repeat (js "?") (length columns)) ++ js ")".

(** ** Calls and outcomes of a handler *)

Section Observations.
Context {E : Engine}.

(** Every call [m] makes to the driver satisfies [P]. *)
Definition Sends (P : DriverCall -> Prop) {A} (m : M E A) : Prop :=
  forall p r p',
    m p = (r, p') -> exists new, calls p' = calls p ++ new /\ Forall P new.

(** The handler answers every invocation with a response. *)
Definition Handled (m : M E ToolResult) : Prop :=
  forall p, exists r p', m p = (Ret r, p').

(** The batch stops with [e] at some statement: the statements before it
    passed the validator, and it was either rejected, with the validator's
    reason, or thrown back by the driver with [e]. *)
Definition FailsWith (statements : list jsstring) (e : JsError) : Prop :=
  exists done stmt rest,
    statements = done ++ stmt :: rest
    /\ Forall (fun s => isValid (validateSqlQuery s) = true) done
    /\ ((isValid (validateSqlQuery stmt) = false
         /\ e = mkError (js "Invalid SQL: " ++ dangerousMessage))
        \/ (isValid (validateSqlQuery stmt) = true
            /\ exists s, fst (run E stmt [] s) = inl e)).

(** What the wrapper of [Database.transaction] runs once its body has thrown
    inside the transaction: the undoing statement, followed by the closing
    one when it works with a savepoint. *)
Definition undoes (nested : bool) (s : store E) : option JsError * store E :=
  match txUndo (E:=E) nested s with
  | (None, s') => if nested then txAfter (E:=E) nested s' else (None, s')
  | failed => failed
  end.

(** Run inside a transaction, the statement leaves it open. *)
Definition KeepsTransaction (stmt : jsstring) : Prop :=
  forall s, inTransaction E s = true ->
            inTransaction E (snd (run E stmt [] s)) = true.

End Observations.

(** A call that does not hand [sql] to the driver. *)
Definition Withholds (sql : jsstring) (c : DriverCall) : Prop :=
  statementOf c <> Some sql.

(** The call, if it carries a statement, carries [sql] without parameters. *)
Definition Carries (sql : jsstring) (c : DriverCall) : Prop :=
  match c with
  | COpen _ => True
  | CRun s [] => s = sql
  | _ => False
  end.

(** * Further definitions *)

(** ** Blank text *)

(** A text of whitespace only. *)
Definition blank (s : jsstring) : Prop :=
  Forall (fun c => JsString.isWhiteSpace c = true) s.

(** ** Observations on a connected process *)

Section Connected.
Context {E : Engine}.

(** From a process that holds its connection, [m] keeps it and makes only
    calls that satisfy [P]. *)
Definition StaysConnected (P : DriverCall -> Prop) {A} (m : M E A) : Prop :=
  forall p r p',
    db p = true -> m p = (r, p') ->
    db p' = true /\ exists new, calls p' = calls p ++ new /\ Forall P new.

End Connected.

(** A call that is not the opening of a connection. *)
Definition NotOpen (c : DriverCall) : Prop :=
  match c with
  | COpen _ => False
  | _ => True
  end.

(** ** Kinds of driver calls *)

(** The call is the opening of a connection or else is exactly [c0]. *)
Definition OnlyCall (c0 c : DriverCall) : Prop :=
  match c with
  | COpen _ => True
  | _ => c = c0
  end.

(** The call reads: it is an opening, an [all] or a [get]. *)
Definition ReadCall (c : DriverCall) : Prop :=
  match c with
  | COpen _ | CAll _ _ | CGet _ _ => True
  | _ => False
  end.

(** The call is an opening or an [all]. *)
Definition AllCall (c : DriverCall) : Prop :=
  match c with
  | COpen _ | CAll _ _ => True
  | _ => False
  end.

(** The call carries no statement. *)
Definition ControlCall (c : DriverCall) : Prop := statementOf c = None.

(** The call that runs [stmt] without parameters. *)
Definition sends_run (stmt : jsstring) : DriverCall := CRun stmt [].

Section Acquisition.
Context {E : Engine}.

(** The statements of a batch that reach the driver when the batch starts on
    the content [s]: each in turn, up to the first one the validator rejects,
    which is not sent, or through the first one the driver throws back, which
    is sent and is the last. *)
Fixpoint sent (stmts : list jsstring) (s : store E) : list jsstring :=
  match stmts with
  | [] => []
  | stmt :: rest =>
      if isValid (validateSqlQuery stmt) then
        stmt :: match run E stmt [] s with
                | (inr _, s') => sent rest s'
                | (inl _, _) => []
                end
      else []
  end.

(** The opening [getDatabase] records from [p], if any. *)
Definition opening (p : Process E) : list DriverCall :=
  if db p then [] else [COpen (DEFAULT_DB_PATH p)].

(** Whether [getDatabase] succeeds from [p]. *)
Definition acquires (p : Process E) : bool :=
  db p || match connect E (DEFAULT_DB_PATH p) (disk p) with
          | None => true
          | Some _ => false
          end.

(** The error [getDatabase] throws from [p], if any. *)
Definition refused (p : Process E) : option JsError :=
  if db p then None else connect E (DEFAULT_DB_PATH p) (disk p).

(** The first error of a sequence of reads: the statements are read through
    [all], in turn and without parameters, from the content [s]. *)
Fixpoint firstFailure (sqls : list jsstring) (s : store E) : option JsError :=
  match sqls with
  | [] => None
  | sql :: rest =>
      match all E sql [] s with
      | (inl e, _) => Some e
      | (inr _, s') => firstFailure rest s'
      end
  end.

(** The error that stops a handler which acquires the connection and then
    reads [sqls]: the refusal of the connection, or the first failing read. *)
Definition readError (sqls : list jsstring) (p : Process E) : option JsError :=
  match refused p with
  | Some e => Some e
  | None => firstFailure sqls (disk p)
  end.

(** The calls of a sequence of reads from the content [s]: one [all] for
    each statement in turn, through the first one the driver throws back,
    which is the last. *)
Fixpoint reads (sqls : list jsstring) (s : store E) : list DriverCall :=
  match sqls with
  | [] => []
  | sql :: rest =>
      CAll sql [] :: match all E sql [] s with
                     | (inr _, s') => reads rest s'
                     | (inl _, _) => []
                     end
  end.

End Acquisition.

(** ** Order of enumerated keys *)

(** Entries compared by their array index. *)
Definition byIndex (a b : N * (jsstring * json)) : Prop := (fst a <= fst b)%N.

(** ** The sample-database script: [examples/setup-database.js] *)

Module Setup.

(** [sql.split(';').map(stmt => stmt.trim()).filter(stmt => stmt.length > 0)]. *)
Definition statements (sql : jsstring) : list jsstring :=
  filter (fun stmt => Nat.ltb 0 (length stmt))
    (map (fun stmt => JsString.trim stmt) (JsSplit.split 59 sql)).

(** The test of the loop, [if (statement.trim())]: a non-empty string is
    truthy. *)
Definition guard (statement : jsstring) : bool :=
  match JsString.trim statement with
  | [] => false
  | _ :: _ => true
  end.

End Setup.

(** ** Resources and prompts of [index.ts] *)

(** A resource response: [{ contents: [{ uri, text }] }]. *)
Record ResourceResult : Type := mkResourceResult {
  contents : list (jsstring * Text)
}.

(** A prompt response: [{ messages: [{ role: "user", content: { type:
    "text", text } }] }], one message for each text. *)
Record PromptResult : Type := mkPromptResult {
  messages : list jsstring
}.

Section Resources.
Context {E : Engine}.
Local Open Scope js_scope.

Definition resource (href : jsstring) (text : Text) : ResourceResult :=
  mkResourceResult [(href, text)].

(** Resource [schema]; its query is the text [list-tables] uses. *)
Definition schemaResource (href : jsstring) : M E ResourceResult :=
  try (
    getDatabase ;;
    tables <- prepareAll listTablesSql [] ;;
    if Nat.eqb (length tables) 0 then
      ret (resource href (Plain (js "No tables found in database")))
    else
      let schemaText :=
        JsString.join (js "

")
          (map (fun table =>
             js "-- Table: " ++ template (prop "name" table) ++ js "
" ++ template (prop "sql" table) ++ js ";") tables) in
      ret (resource href (Plain schemaText)))
  catch (fun error =>
    ret (resource href (Plain (js "Error reading schema: " ++ message error)))).

Definition tableNamesSql : jsstring :=
  js "
          SELECT name FROM sqlite_master
          WHERE type='table' AND name NOT LIKE 'sqlite_%'
          ORDER BY name
        ".

(** An element of an array as [JSON.stringify] renders it: [null] for
    [undefined]. *)
Definition element (v : option json) : json :=
  match v with
  | Some x => x
  | None => JNull
  end.

(** Resource [tables]. *)
Definition tablesResource (href : jsstring) : M E ResourceResult :=
  try (
    getDatabase ;;
    tables <- prepareAll tableNamesSql [] ;;
    ret (resource href
           (Stringify (JArr (map (fun t => element (prop "name" t)) tables)))))
  catch (fun error =>
    ret (resource href (Plain (js "Error reading tables: " ++ message error)))).

(** Resource [table-info], for the table named in the URI. *)
Definition tableInfoResource (href tableName : jsstring)
  : M E ResourceResult :=
  try (
    getDatabase ;;
    columns <- prepareAll (tableInfoSql tableName) [] ;;
    indexes <- prepareAll (indexListSql tableName) [] ;;
    foreignKeys <- prepareAll (foreignKeyListSql tableName) [] ;;
    let info := JObj
      [ (js "table", JStr tableName);
        (js "columns", JArr columns);
        (js "indexes", JArr indexes);
        (js "foreignKeys", JArr foreignKeys);
        (js "columnInfo", JStr (formatTableInfo columns)) ] in
    ret (resource href (Stringify info)))
  catch (fun error =>
    ret (resource href
           (Plain (js "Error reading table info: " ++ message error)))).

(** The loop of [generate-query] over the names it was given: one
    [PRAGMA table_info] each, [schemaContext] growing. *)
Fixpoint describeListed (tableList : list jsstring) (schemaContext : jsstring)
  : M E jsstring :=
  match tableList with
  | [] => ret schemaContext
  | tableName :: rest =>
      columns <- prepareAll (tableInfoSql tableName) [] ;;
      describeListed rest
        (schemaContext ++ js "Table " ++ tableName ++ js ": "
         ++ formatTableInfo columns ++ js "
")
  end.

(** The loop of [generate-query] over the rows of [sqlite_master]. *)
Fixpoint describeAll (allTables : list json) (schemaContext : jsstring)
  : M E jsstring :=
  match allTables with
  | [] => ret schemaContext
  | table :: rest =>
      columns <- prepareAll (tableInfoSql (template (prop "name" table))) [] ;;
      describeAll rest
        (schemaContext ++ js "Table " ++ template (prop "name" table)
         ++ js ": " ++ formatTableInfo columns ++ js "
")
  end.

Definition generateQueryText (schemaContext requirement : jsstring)
  : jsstring :=
  js "Given the following database schema:

" ++ schemaContext ++ js "

Please generate an appropriate SQL query for this requirement: "
  ++ requirement ++ js "

Provide:
1. The complete SQL query
2. Explanation of what the query does
3. Any assumptions made
4. Suggestions for optimization if applicable".

(** The query of [generate-query] for all tables: the text of
    [tableNamesSql] at the indentation it has there. *)
Definition allTablesSql : jsstring :=
  js "
            SELECT name FROM sqlite_master
            WHERE type='table' AND name NOT LIKE 'sqlite_%'
            ORDER BY name
          ".

(** [tables && tables.trim().length > 0]. *)
Definition tablesGiven (tables : option jsstring) : bool :=
  match tables with
  | Some (c :: t) => Nat.ltb 0 (length (JsString.trim (c :: t)))
  | _ => false
  end.

(** Prompt [generate-query]. *)
Definition generateQueryPrompt (requirement : jsstring)
           (tables : option jsstring) : M E PromptResult :=
  try (
    getDatabase ;;
    schemaContext <-
      (if tablesGiven tables then
         let tableList :=
           map (fun t => JsString.trim t)
               (JsSplit.split 44 (match tables with Some t => t | None => [] end))
         in
         describeListed tableList []
       else
         allTables <- prepareAll allTablesSql [] ;;
         describeAll allTables []) ;;
    ret (mkPromptResult [generateQueryText schemaContext requirement]))
  catch (fun error =>
    ret (mkPromptResult
           [js "Error generating query prompt: " ++ message error])).

End Resources.

(** The call opens the connection or reads the columns of one of the tables
    named in [tables], a comma-separated list, the name trimmed. *)
Definition DescribesListed (tables : jsstring) (c : DriverCall) : Prop :=
  match c with
  | COpen _ => True
  | CAll sql [] =>
      exists t, In t (JsSplit.split 44 tables)
                /\ sql = tableInfoSql (JsString.trim t)
  | _ => False
  end.

(** * Properties *)

(** ** The matcher against the meaning of the patterns *)

Module RegExpFacts.

Lemma lit_app (l s : jsstring) : lit l (l ++ s) = Some s.
Proof.
  induction l as [|x l IH]; simpl; [reflexivity|].
  now rewrite N.eqb_refl.
Qed.

Lemma lit_some (l s s' : jsstring) : lit l s = Some s' -> s = l ++ s'.
Proof.
  revert s; induction l as [|x l IH]; intros [|y s]; simpl; intros H;
    try congruence.
  destruct (N.eqb_spec x y) as [->|]; [|discriminate].
  now rewrite (IH _ H).
Qed.

Lemma star_spec (c : cclass) (s : jsstring) :
  forall i k,
    star c i s k = true <->
    exists w s', s = w ++ s' /\ Forall (fun x => inClass c x = true) w
                 /\ k (i + length w) s' = true.
Proof.
  induction s as [|x s IH]; intros i k; simpl.
  - rewrite orb_false_r. split.
    + intros H. exists [], []. simpl. now rewrite Nat.add_0_r.
    + intros (w & s' & Hs & _ & Hk).
      symmetry in Hs. apply app_eq_nil in Hs as [-> ->].
      simpl in Hk. now rewrite Nat.add_0_r in Hk.
  - rewrite orb_true_iff, andb_true_iff, IH. split.
    + intros [Hk | (Hx & w & s' & -> & Hw & Hk)].
      * exists [], (x :: s). simpl. now rewrite Nat.add_0_r.
      * exists (x :: w), s'. simpl.
        rewrite Nat.add_succ_r. auto.
    + intros (w & s' & Hs & Hw & Hk). destruct w as [|y w]; simpl in *.
      * left. subst s'. now rewrite Nat.add_0_r in Hk.
      * right. injection Hs as <- ->. inversion Hw; subst.
        split; [assumption|]. exists w, s'.
        rewrite Nat.add_succ_r in Hk. auto.
Qed.

(** The matcher accepts exactly the splits the patterns denote. *)
Lemma rmatch_spec (r : regex) :
  forall i s k,
    rmatch r i s k = true <->
    exists w s', s = w ++ s' /\ Lang r i w s' /\ k (i + length w) s' = true.
Proof.
  induction r as [|l|c|c|c|a IHa b IHb|a IHa b IHb|a IHa]; intros i s k;
    simpl.
  - rewrite andb_true_iff, Nat.eqb_eq. split.
    + intros [-> Hk]. exists [], s. simpl. auto.
    + intros (w & s' & -> & [-> ->] & Hk). simpl in *. auto.
  - split.
    + destruct (lit l s) as [s'|] eqn:Hl; [|discriminate].
      intros Hk. exists l, s'. apply lit_some in Hl. auto.
    + intros (w & s' & -> & -> & Hk). now rewrite lit_app.
  - destruct s as [|x s]; split.
    + discriminate.
    + intros (w & s' & Hs & (x & -> & _) & _). discriminate.
    + rewrite andb_true_iff. intros [Hx Hk].
      exists [x], s. simpl. rewrite Nat.add_1_r. eauto.
    + intros (w & s' & Hs & (y & -> & Hy) & Hk).
      injection Hs as -> ->. simpl in Hk. rewrite Nat.add_1_r in Hk.
      now rewrite Hy, Hk.
  - apply star_spec.
  - destruct s as [|x s]; split.
    + discriminate.
    + intros (w & s' & Hs & [Hne _] & _).
      symmetry in Hs. apply app_eq_nil in Hs as [-> _]. now elim Hne.
    + rewrite andb_true_iff, star_spec.
      intros (Hx & w & s' & -> & Hw & Hk).
      exists (x :: w), s'. simpl. rewrite Nat.add_succ_r.
      repeat split; auto. discriminate.
    + intros (w & s' & Hs & [Hne Hw] & Hk).
      destruct w as [|y w]; [now elim Hne|].
      simpl in Hs. injection Hs as <- ->. inversion Hw; subst.
      rewrite andb_true_iff, star_spec. split; [assumption|].
      exists w, s'. simpl in Hk. rewrite Nat.add_succ_r in Hk. auto.
  - rewrite IHa. split.
    + intros (w1 & s1 & -> & Ha & Hb). apply IHb in Hb.
      destruct Hb as (w2 & s' & -> & Hb & Hk).
      exists (w1 ++ w2), s'. rewrite <- app_assoc. split; [reflexivity|].
      split.
      * exists w1, w2. auto.
      * now rewrite length_app, Nat.add_assoc.
    + intros (w & s' & -> & (w1 & w2 & -> & Ha & Hb) & Hk).
      exists w1, (w2 ++ s'). rewrite <- app_assoc.
      split; [reflexivity|]. split; [assumption|].
      apply IHb. exists w2, s'.
      rewrite length_app, Nat.add_assoc in Hk. auto.
  - rewrite orb_true_iff, IHa, IHb. split.
    + intros [(w & s' & ? & ? & ?) | (w & s' & ? & ? & ?)];
        exists w, s'; auto.
    + intros (w & s' & ? & [?|?] & ?); [left|right]; exists w, s'; auto.
  - rewrite andb_true_iff, negb_true_iff. split.
    + intros [Hn Hk]. exists [], s. simpl. rewrite Nat.add_0_r.
      repeat split; auto.
      intros (w' & rest' & -> & Hl).
      assert (rmatch a i (w' ++ rest') accept = true) as Ht
          by (apply IHa; exists w', rest'; auto).
      congruence.
    + intros (w & s' & -> & [-> Hn] & Hk). simpl in *.
      rewrite Nat.add_0_r in Hk. split; [|assumption].
      destruct (rmatch a i s' accept) eqn:Hm; [|reflexivity].
      apply IHa in Hm. destruct Hm as (w' & rest' & ? & ? & _).
      elim Hn. eauto.
Qed.

Lemma search_spec (r : regex) (s : jsstring) :
  forall i,
    search r i s = true <->
    exists pre w post, s = pre ++ w ++ post
                       /\ Lang r (i + length pre) w post.
Proof.
  induction s as [|x s IH]; intros i; simpl.
  - rewrite orb_false_r, rmatch_spec. split.
    + intros (w & s' & Hs & Hl & _). exists [], w, s'.
      simpl. now rewrite Nat.add_0_r.
    + intros (pre & w & post & Hs & Hl).
      symmetry in Hs. apply app_eq_nil in Hs as [-> Hs].
      simpl in Hl. rewrite Nat.add_0_r in Hl.
      exists w, post. auto.
  - rewrite orb_true_iff, rmatch_spec, IH. split.
    + intros [(w & s' & Hs & Hl & _) | (pre & w & post & -> & Hl)].
      * exists [], w, s'. simpl. now rewrite Nat.add_0_r.
      * exists (x :: pre), w, post. simpl.
        now rewrite Nat.add_succ_r.
    + intros (pre & w & post & Hs & Hl). destruct pre as [|y pre].
      * left. simpl in *. rewrite Nat.add_0_r in Hl.
        exists w, post. auto.
      * right. simpl in Hs. injection Hs as <- ->.
        exists pre, w, post. simpl in Hl.
        now rewrite Nat.add_succ_r in Hl.
Qed.

(** [test] finds a match wherever the pattern's text occurs. *)
Lemma test_spec (r : regex) (s : jsstring) :
  test r s = true <->
  exists pre w post, s = pre ++ w ++ post /\ Lang r (length pre) w post.
Proof. unfold test. now rewrite search_spec. Qed.

End RegExpFacts.

(** ** What the validator accepts and rejects *)

Module ValidatorFacts.
Import RegExpFacts.

Lemma startsWith_app (n r : jsstring) : JsString.startsWith (n ++ r) n = true.
Proof.
  induction n as [|x n IH]; simpl; [reflexivity|].
  now rewrite N.eqb_refl.
Qed.

Lemma Lang_allowListed i w rest :
  Lang allowListed i w rest <-> In w allowedNames.
Proof.
  unfold allowListed, allowedNames. cbn [Lang In]. intuition congruence.
Qed.

Lemma pragma_guard_spec pre ws post :
  spaces ws ->
  (forall n, In n allowedNames -> JsString.startsWith post n = false) ->
  test (seq [Lit (js "pragma"); Plus CSpace; NotAhead allowListed])
       (pre ++ js "pragma" ++ ws ++ post) = true.
Proof.
  intros [Hne Hws] Hpost. apply test_spec.
  exists pre, (js "pragma" ++ ws), post. rewrite <- app_assoc.
  split; [reflexivity|]. cbn [seq Lang].
  exists (js "pragma"), ws. repeat split.
  exists ws, []. rewrite app_nil_r. repeat split; auto.
  intros (w' & rest' & -> & Hw'). apply Lang_allowListed in Hw'.
  specialize (Hpost _ Hw'). now rewrite startsWith_app in Hpost.
Qed.

Lemma keyword_pair_spec kw pre ws post :
  spaces ws ->
  test (seq [Lit kw; Plus CSpace; Lit (js "database")])
       (pre ++ kw ++ ws ++ js "database" ++ post) = true.
Proof.
  intros [Hne Hws]. apply test_spec.
  exists pre, (kw ++ ws ++ js "database"), post.
  rewrite <- !app_assoc. split; [reflexivity|]. cbn [seq Lang].
  exists kw, (ws ++ js "database"). repeat split.
  exists ws, (js "database"). repeat split; auto.
Qed.

(** Any text of the dangerous shape trips one of the three patterns. *)
Lemma dangerous_detected (t : jsstring) :
  DangerousText t ->
  existsb (fun pattern => test pattern t) dangerousPatterns = true.
Proof.
  unfold dangerousPatterns. cbn [existsb].
  intros [(pre & ws & post & -> & Hws & Hpost)
         |[(pre & ws & post & -> & Hws)|(pre & ws & post & -> & Hws)]].
  - now rewrite pragma_guard_spec.
  - now rewrite (keyword_pair_spec (js "attach")), orb_true_r.
  - now rewrite (keyword_pair_spec (js "detach")), !orb_true_r.
Qed.

Lemma dangerous_rejected (sql : jsstring) :
  DangerousText (normalize sql) ->
  validateSqlQuery sql = mkValidation false false (Some dangerousMessage).
Proof.
  intros H. unfold validateSqlQuery. now rewrite dangerous_detected.
Qed.

(** An anchored pattern can only match at the start of the subject. *)
Lemma test_anchored (r : regex) (t : jsstring) :
  test (Seq Bol r) t = true <->
  exists w post, t = w ++ post /\ Lang r 0 w post.
Proof.
  rewrite test_spec. cbn [Lang]. split.
  - intros (pre & w & post & -> & w1 & w2 & -> & [-> Hpre] & Hl).
    apply length_zero_iff_nil in Hpre as ->. simpl in *.
    exists w2, post. auto.
  - intros (w & post & -> & Hl). exists [], w, post.
    split; [reflexivity|]. exists [], w. simpl. auto.
Qed.

Lemma select_spec (t : jsstring) :
  test (seq [Bol; Lit (js "select"); Cls CSpace]) t = true <->
  exists c rest, t = js "select" ++ c :: rest /\ inClass CSpace c = true.
Proof.
  cbn [seq]. rewrite test_anchored. cbn [Lang]. split.
  - intros (w & post & -> & w1 & w2 & -> & -> & x & -> & Hx).
    exists x, post. now rewrite <- app_assoc.
  - intros (c & rest & -> & Hc). exists (js "select" ++ [c]), rest.
    rewrite <- app_assoc. split; [reflexivity|].
    exists (js "select"), [c]. eauto.
Qed.

Lemma with_select_spec (t : jsstring) :
  test (seq [Bol; Lit (js "with"); Cls CSpace; Star CDot;
             Lit (js "select"); Cls CSpace]) t = true <->
  exists c mid c' rest,
    t = js "with" ++ c :: mid ++ js "select" ++ c' :: rest
    /\ inClass CSpace c = true
    /\ Forall (fun x => inClass CDot x = true) mid
    /\ inClass CSpace c' = true.
Proof.
  cbn [seq]. rewrite test_anchored. cbn [Lang]. split.
  - intros (w & post & -> & w1 & w2 & -> & -> & w3 & w4 & -> & (c & -> & Hc)
            & mid & w5 & -> & Hmid & w6 & w7 & -> & -> & c' & -> & Hc').
    exists c, mid, c', post. repeat split; auto.
    now rewrite <- !app_assoc.
  - intros (c & mid & c' & rest & -> & Hc & Hmid & Hc').
    exists (js "with" ++ [c] ++ mid ++ js "select" ++ [c']), rest.
    split; [now rewrite <- !app_assoc|].
    exists (js "with"), ([c] ++ mid ++ js "select" ++ [c']).
    repeat split.
    exists [c], (mid ++ js "select" ++ [c']). repeat split; eauto.
    exists mid, (js "select" ++ [c']). repeat split; auto.
    exists (js "select"), [c']. eauto.
Qed.

Lemma pragma_read_spec (n t : jsstring) :
  test (seq [Bol; Lit (js "pragma"); Plus CSpace; Lit n]) t = true <->
  exists ws rest, t = js "pragma" ++ ws ++ n ++ rest /\ spaces ws.
Proof.
  cbn [seq]. rewrite test_anchored. cbn [Lang]. split.
  - intros (w & post & -> & w1 & w2 & -> & -> & ws & w3 & -> & Hws & ->).
    exists ws, post. split; [now rewrite <- !app_assoc | exact Hws].
  - intros (ws & rest & -> & Hws).
    exists (js "pragma" ++ ws ++ n), rest.
    split; [now rewrite <- !app_assoc|].
    exists (js "pragma"), (ws ++ n). repeat split.
    exists ws, n. repeat split; apply Hws.
Qed.

(** The five read-only patterns recognise exactly the read-only shape. *)
Lemma readOnly_detected (t : jsstring) :
  existsb (fun pattern => test pattern t) readOnlyPatterns = true <->
  ReadOnlyText t.
Proof.
  unfold readOnlyPatterns, ReadOnlyText, allowedNames. cbn [existsb].
  rewrite !orb_true_iff, select_spec, with_select_spec, !pragma_read_spec.
  split.
  - intros [H|[H|[H|[H|[H|H]]]]]; auto; try discriminate;
      destruct H as (ws & rest & -> & Hws); right; right;
      eexists ws, _, rest; (split; [reflexivity|]); split; auto;
      cbn [In]; auto.
  - intros [H|[H|(ws & n & rest & -> & Hws & Hn)]]; auto.
    cbn [In] in Hn.
    destruct Hn as [<-|[<-|[<-|[]]]]; eauto 10.
Qed.

End ValidatorFacts.

(** ** Classification (C1) *)

Import ValidatorFacts.

Lemma verdict_valid (sql : jsstring) :
  isValid (validateSqlQuery sql) = true ->
  verdict (validateSqlQuery sql)
  = if existsb (fun pattern => test pattern (normalize sql)) readOnlyPatterns
    then ReadOnly else Mutating.
Proof.
  unfold validateSqlQuery, verdict.
  destruct (existsb _ dangerousPatterns); simpl; [discriminate|].
  reflexivity.
Qed.

(** C1, as stated, fails: [SELECT*FROM t] starts with [select] once
    normalized and is not rejected, yet it is classified as mutating. *)
Lemma select_without_space_is_mutating :
  JsString.startsWith (normalize (js "SELECT*FROM t")) (js "select") = true
  /\ verdict (validateSqlQuery (js "SELECT*FROM t")) = Mutating.
Proof. split; vm_compute; reflexivity. Qed.

(** C1, amended: a text the validator does not reject is classified as
    read-only exactly when its normalized form starts with [select] and a
    whitespace character, with [with], whitespace, and on the same line
    [select] and whitespace, or with [pragma], whitespace and one of the three
    allow-listed names; every other such text is classified as mutating. *)
Theorem validator_classification (sql : jsstring) :
  isValid (validateSqlQuery sql) = true ->
  (verdict (validateSqlQuery sql) = ReadOnly <-> ReadOnlyText (normalize sql))
  /\ (verdict (validateSqlQuery sql) = Mutating
      <-> ~ ReadOnlyText (normalize sql)).
Proof.
  intros Hv. rewrite (verdict_valid _ Hv), <- readOnly_detected.
  destruct (existsb _ readOnlyPatterns); split; split;
    intros H; try congruence; try reflexivity.
Qed.

Lemma validator_classification_witness :
  isValid (validateSqlQuery (js "SELECT * FROM t")) = true
  /\ verdict (validateSqlQuery (js "SELECT * FROM t")) = ReadOnly.
Proof.
  assert (isValid (validateSqlQuery (js "SELECT * FROM t")) = true) as Hv
      by (vm_compute; reflexivity).
  split; [exact Hv|].
  apply (proj1 (validator_classification (js "SELECT * FROM t") Hv)).
  left. exists 32%N, (js "* from t"). split; vm_compute; reflexivity.
Defined.

(** ** What the handlers send to the driver *)

Section Traces.
Context {E : Engine}.

Local Abbreviation Sends := (Sends (E:=E)).

Variable P : DriverCall -> Prop.

Lemma sends_ret {A} (a : A) : Sends P (ret a).
Proof.
  intros p r p' [= <- <-]. exists []. now rewrite app_nil_r.
Qed.

Lemma sends_throw {A} (e : JsError) : Sends P (throw (A:=A) e).
Proof.
  intros p r p' [= <- <-]. exists []. now rewrite app_nil_r.
Qed.

Lemma sends_then {A B} (m : M E A) (p p1 : Process E) (r1 : Result A)
      (k : M E B) (r : Result B) (p' : Process E) :
  Sends P m -> Sends P k -> m p = (r1, p1) -> k p1 = (r, p') ->
  exists new, calls p' = calls p ++ new /\ Forall P new.
Proof.
  intros Hm Hk H1 H2.
  destruct (Hm _ _ _ H1) as (n1 & E1 & F1).
  destruct (Hk _ _ _ H2) as (n2 & E2 & F2).
  exists (n1 ++ n2). rewrite E2, E1, app_assoc. split; [reflexivity|].
  now apply Forall_app.
Qed.

Lemma sends_bind {A B} (m : M E A) (f : A -> M E B) :
  Sends P m -> (forall a, Sends P (f a)) -> Sends P (bind m f).
Proof.
  intros Hm Hf p r p'. unfold bind.
  destruct (m p) as [[a|e] p1] eqn:H1; intros H2.
  - eapply sends_then with (m := m) (k := f a); eauto.
  - injection H2 as <- <-. exact (Hm _ _ _ H1).
Qed.

Lemma sends_tryCatch {A} (body : M E A) (handler : JsError -> M E A) :
  Sends P body -> (forall e, Sends P (handler e)) ->
  Sends P (tryCatch body handler).
Proof.
  intros Hm Hh p r p'. unfold tryCatch.
  destruct (body p) as [[a|e] p1] eqn:H1; intros H2.
  - injection H2 as <- <-. exact (Hm _ _ _ H1).
  - eapply sends_then with (m := body) (k := handler e); eauto.
Qed.

Lemma sends_driver {A} (c : DriverCall)
      (f : store E -> (JsError + A) * store E) :
  P c -> Sends P (driver c f).
Proof.
  intros Hc p r p'. unfold driver.
  destruct (f (disk p)) as [[e|a] s]; intros [= <- <-];
    exists [c]; simpl; auto.
Qed.

Lemma sends_control (c : DriverCall)
      (f : store E -> option JsError * store E) :
  P c -> Sends P (control c f).
Proof. intros Hc. now apply sends_driver. Qed.

Lemma sends_getDatabase :
  (forall path, P (COpen path)) -> Sends P getDatabase.
Proof.
  intros Hopen p r p'. unfold getDatabase.
  destruct (db p).
  - intros [= <- <-]. exists []. now rewrite app_nil_r.
  - assert (Sends P (initializeDatabase (DEFAULT_DB_PATH p))) as Hi.
    { apply sends_tryCatch; [now apply sends_driver|].
      intros e. apply sends_throw. }
    destruct (initializeDatabase (DEFAULT_DB_PATH p) p) as [[[]|e] p1] eqn:H1;
      intros [= <- <-]; exact (Hi _ _ _ H1).
Qed.

Lemma sends_wrapTransaction {A} (nested : bool) (fn : M E A) :
  P (cBefore nested) -> P (cAfter nested) -> P (cUndo nested) ->
  Sends P fn -> Sends P (wrapTransaction nested fn).
Proof.
  intros Hb Hc Hr Hfn. unfold wrapTransaction.
  apply sends_bind; [now apply sends_control|]. intros _.
  apply sends_tryCatch.
  - apply sends_bind; [assumption|]. intros result.
    apply sends_bind; [now apply sends_control|]. intros _.
    apply sends_ret.
  - intros ex p r p'. destruct (inTransaction E (disk p)).
    + apply sends_bind; [now apply sends_control|]. intros _.
      apply sends_bind; [|intros _; apply sends_throw].
      destruct nested; [now apply sends_control | apply sends_ret].
    + apply sends_throw.
Qed.

Lemma sends_transaction {A} (fn : M E A) :
  (forall nested, P (cBefore nested) /\ P (cAfter nested) /\ P (cUndo nested)) ->
  Sends P fn -> Sends P (transaction fn).
Proof.
  intros H Hfn p r p'. unfold transaction.
  destruct (H (inTransaction E (disk p))) as (Hb & Hc & Hr).
  now apply sends_wrapTransaction.
Qed.

Lemma sends_runStatements (stmts : list jsstring) :
  (forall stmt, isValid (validateSqlQuery stmt) = true -> P (CRun stmt [])) ->
  forall results, Sends P (runStatements stmts results).
Proof.
  intros HP. induction stmts as [|stmt rest IH]; intros results; simpl.
  - apply sends_ret.
  - destruct (isValid (validateSqlQuery stmt)) eqn:Hv; simpl.
    + apply sends_bind; [apply sends_driver; auto|]. intros result. apply IH.
    + apply sends_throw.
Qed.

End Traces.

(** ** The gate in front of the raw-SQL tools *)

Section Gate.
Context {E : Engine}.

Lemma query_rejected (sql : jsstring) (p : Process E) :
  isValid (validateSqlQuery sql) = false ->
  queryTool sql p
  = (Ret (handleDatabaseError
            (mkError (errorOr (error (validateSqlQuery sql))
                              (js "Invalid SQL")))), p).
Proof.
  intros Hv. unfold queryTool, tryCatch. now rewrite Hv.
Qed.

Lemma execute_rejected (sql : jsstring) (p : Process E) :
  isValid (validateSqlQuery sql) = false ->
  executeTool sql p
  = (Ret (handleDatabaseError
            (mkError (errorOr (error (validateSqlQuery sql))
                              (js "Invalid SQL")))), p).
Proof.
  intros Hv. unfold executeTool, tryCatch. now rewrite Hv.
Qed.

Lemma withholds_other (sql stmt : jsstring) (c : DriverCall) :
  isValid (validateSqlQuery sql) = false ->
  isValid (validateSqlQuery stmt) = true ->
  statementOf c = Some stmt -> Withholds sql c.
Proof. unfold Withholds. intros H1 H2 -> [= ->]. congruence. Qed.

Lemma query_withholds (sql sql' : jsstring) :
  isValid (validateSqlQuery sql) = false ->
  Sends (Withholds sql) (queryTool (E:=E) sql').
Proof.
  intros Hv. unfold queryTool. apply sends_tryCatch.
  - destruct (isValid (validateSqlQuery sql')) eqn:Hv'; simpl;
      [|apply sends_ret].
    destruct (isReadOnly (validateSqlQuery sql')); simpl; [|apply sends_ret].
    apply sends_bind; [apply sends_getDatabase; discriminate|]. intros _.
    apply sends_bind; [|intros results; apply sends_ret].
    apply sends_driver. now apply (withholds_other (stmt:=sql')).
  - intros e. apply sends_ret.
Qed.

Lemma execute_withholds (sql sql' : jsstring) :
  isValid (validateSqlQuery sql) = false ->
  Sends (Withholds sql) (executeTool (E:=E) sql').
Proof.
  intros Hv. unfold executeTool. apply sends_tryCatch.
  - destruct (isValid (validateSqlQuery sql')) eqn:Hv'; simpl;
      [|apply sends_ret].
    apply sends_bind; [apply sends_getDatabase; discriminate|]. intros _.
    apply sends_bind; [|intros results; apply sends_ret].
    apply sends_driver. now apply (withholds_other (stmt:=sql')).
  - intros e. apply sends_ret.
Qed.

Lemma transaction_withholds (sql : jsstring) (statements : list jsstring) :
  isValid (validateSqlQuery sql) = false ->
  Sends (Withholds sql) (transactionTool (E:=E) statements).
Proof.
  intros Hv. unfold transactionTool.
  apply sends_bind; [apply sends_getDatabase; discriminate|]. intros _.
  apply sends_tryCatch; [|intros e; apply sends_ret].
  apply sends_bind; [|intros results; apply sends_ret].
  apply sends_transaction;
    [intros nested; destruct nested; repeat split; discriminate|].
  apply sends_runStatements. intros stmt Hs.
  now apply (withholds_other (stmt:=stmt)).
Qed.

(** The wrapper returns only when its opening statement, the body and its
    closing statement all did. *)
Lemma wrapTransaction_returns {A} (nested : bool) (fn : M E A)
      (p p' : Process E) (a : A) :
  wrapTransaction nested fn p = (Ret a, p') ->
  exists q q1,
    control (cBefore nested) (txBefore nested) p = (Ret tt, q)
    /\ fn q = (Ret a, q1)
    /\ control (cAfter nested) (txAfter nested) q1 = (Ret tt, p').
Proof.
  unfold wrapTransaction, bind at 1.
  destruct (control (cBefore nested) (txBefore nested) p) as [[[]|e] q] eqn:Hb;
    [|discriminate].
  unfold tryCatch, bind at 1.
  destruct (fn q) as [[b|e] q1] eqn:Hfn.
  - unfold bind at 1.
    destruct (control (cAfter nested) (txAfter nested) q1)
      as [[[]|e] q2] eqn:Hc.
    + intros [= <- <-]. exists q, q1. auto.
    + destruct (inTransaction E (disk q2)); [|discriminate].
      unfold bind at 1.
      destruct (control (cUndo nested) (txUndo nested) q2) as [[[]|e'] q3];
        [|discriminate].
      unfold bind.
      destruct ((if nested
                 then control (cAfter nested) (txAfter nested)
                 else ret tt) q3) as [[[]|e'] q4]; discriminate.
  - destruct (inTransaction E (disk q1)); [|discriminate].
    unfold bind at 1.
    destruct (control (cUndo nested) (txUndo nested) q1) as [[[]|e'] q3];
      [|discriminate].
    unfold bind.
    destruct ((if nested
               then control (cAfter nested) (txAfter nested)
               else ret tt) q3) as [[[]|e'] q4]; discriminate.
Qed.

(** A batch holding a rejected statement never runs to its end. *)
Lemma runStatements_rejected (sql : jsstring) (stmts : list jsstring) :
  isValid (validateSqlQuery sql) = false -> In sql stmts ->
  forall results (p : Process E),
    exists e p', runStatements stmts results p = (Throw e, p').
Proof.
  intros Hv. induction stmts as [|stmt rest IH]; intros Hin results p;
    [contradiction|]. simpl.
  destruct (isValid (validateSqlQuery stmt)) eqn:Hs; simpl.
  - destruct Hin as [->|Hin]; [congruence|].
    unfold bind. destruct (prepareRun stmt [] p) as [[result|e] p1].
    + apply IH, Hin.
    + eauto.
  - unfold throw. eauto.
Qed.

Lemma transaction_rejected (sql : jsstring) (statements : list jsstring)
      (p : Process E) (r : ToolResult) (p' : Process E) :
  isValid (validateSqlQuery sql) = false -> In sql statements ->
  transactionTool statements p = (Ret r, p') -> isError r = true.
Proof.
  intros Hv Hin. unfold transactionTool, bind at 1.
  destruct (getDatabase p) as [[[]|e0] p1]; [|discriminate].
  unfold tryCatch, bind at 1.
  destruct (transaction (runStatements statements []) p1)
    as [[results|e] p2] eqn:Ht.
  - unfold transaction in Ht.
    destruct (wrapTransaction_returns _ _ _ Ht) as (q & q1 & _ & Hrun & _).
    destruct (runStatements_rejected sql statements Hv Hin [] q)
      as (e & q' & Hthrow).
    congruence.
  - unfold caught, ret. now intros [= <- <-].
Qed.

End Gate.

(** ** Rejected text (C2, C10) and mutating text (C3) *)

Lemma dangerous_verdict (sql : jsstring) :
  DangerousText (normalize sql) ->
  isValid (validateSqlQuery sql) = false
  /\ verdict (validateSqlQuery sql) = Rejected dangerousMessage.
Proof.
  intros H. now rewrite (dangerous_rejected _ H).
Qed.

Lemma allowed_names_absent (post : jsstring) :
  JsString.startsWith post (js "table_info") = false ->
  JsString.startsWith post (js "schema_version") = false ->
  JsString.startsWith post (js "user_version") = false ->
  forall n, In n allowedNames -> JsString.startsWith post n = false.
Proof.
  intros H1 H2 H3 n [<-|[<-|[<-|[]]]]; assumption.
Qed.

Lemma spaces_one : spaces [32%N].
Proof. split; [discriminate|]. repeat constructor. Qed.

(** C2, as stated, fails: [PRAGMA index_list(t)] is a pragma outside the
    allow-list, which the validator rejects, and [describe-table] hands that
    very statement to the driver for an existing table [t]. *)
Lemma describe_table_sends_unlisted_pragma :
  DangerousText (normalize (js "PRAGMA index_list(t)"))
  /\ verdict (validateSqlQuery (js "PRAGMA index_list(t)"))
     = Rejected dangerousMessage
  /\ In (CAll (js "PRAGMA index_list(t)") [])
        (calls (snd (describeTableTool (js "t") Double.opened))).
Proof.
  assert (DangerousText (normalize (js "PRAGMA index_list(t)"))) as H.
  { left. exists [], [32%N], (js "index_list(t)").
    split; [reflexivity|]. split; [exact spaces_one|].
    apply allowed_names_absent; reflexivity. }
  split; [exact H|]. split; [apply dangerous_verdict, H|].
  vm_compute. auto.
Qed.

(** C2, amended: a text matching [pragma] outside the allow-list, or
    [attach database] / [detach database], is rejected by the validator with
    the reason "Dangerous SQL operation detected", and the tools that take SQL
    statements ([query], [execute], [transaction]) never hand it to the
    driver, whatever they are asked to run. *)
Theorem rejected_text_withheld_by_sql_tools (sql : jsstring) :
  DangerousText (normalize sql) ->
  verdict (validateSqlQuery sql) = Rejected dangerousMessage
  /\ forall E : Engine,
      (forall sql', Sends (Withholds sql) (queryTool (E:=E) sql'))
      /\ (forall sql', Sends (Withholds sql) (executeTool (E:=E) sql'))
      /\ (forall statements,
             Sends (Withholds sql) (transactionTool (E:=E) statements)).
Proof.
  intros H. destruct (dangerous_verdict sql H) as [Hv Hr].
  split; [exact Hr|]. intros E. repeat split; intros.
  - now apply query_withholds.
  - now apply execute_withholds.
  - now apply transaction_withholds.
Qed.

Lemma rejected_text_withheld_by_sql_tools_witness :
  DangerousText (normalize (js "PRAGMA journal_mode = DELETE"))
  /\ verdict (validateSqlQuery (js "PRAGMA journal_mode = DELETE"))
     = Rejected dangerousMessage
  /\ Sends (Withholds (js "PRAGMA journal_mode = DELETE"))
           (executeTool (E:=Double.engine) (js "PRAGMA journal_mode = DELETE")).
Proof.
  assert (DangerousText (normalize (js "PRAGMA journal_mode = DELETE"))) as H.
  { left. exists [], [32%N], (js "journal_mode = delete").
    split; [reflexivity|]. split; [exact spaces_one|].
    apply allowed_names_absent; reflexivity. }
  split; [exact H|].
  destruct (rejected_text_withheld_by_sql_tools _ H) as [Hr Ht].
  split; [exact Hr|]. apply (Ht Double.engine).
Defined.

(** C10, as stated, fails in its last clause: [delete-record] is given a
    WHERE text holding [attach database] inside a string literal, builds a
    statement that holds it too, and runs it. *)
Lemma delete_record_runs_dangerous_text :
  DangerousText (normalize (js "note = 'attach database'"))
  /\ DangerousText
       (normalize (js "DELETE FROM t WHERE note = 'attach database'"))
  /\ exists r p',
      deleteRecordTool (js "t") (js "note = 'attach database'") Double.opened
      = (Ret r, p')
      /\ isError r = false
      /\ In (CRun (js "DELETE FROM t WHERE note = 'attach database'") [])
            (calls p').
Proof.
  split; [|split].
  - right; left. exists (js "note = '"), [32%N], (js "'").
    split; [reflexivity | exact spaces_one].
  - right; left. exists (js "delete from t where note = '"), [32%N], (js "'").
    split; [reflexivity | exact spaces_one].
  - eexists _, _. split; [vm_compute; reflexivity|].
    split; [reflexivity|]. simpl. auto.
Qed.

(** C10, amended: the disallowed-pattern check is unanchored.  A text whose
    normalized form contains anywhere [pragma] and whitespace not followed by
    an allow-listed name, or [attach] / [detach], whitespace and [database],
    is invalid for [validateSqlQuery]; [query] and [execute] answer it with
    the error envelope and touch nothing, and a [transaction] batch that
    holds it never succeeds. *)
Theorem dangerous_text_anywhere_is_refused (sql : jsstring) :
  DangerousText (normalize sql) ->
  validateSqlQuery sql = mkValidation false false (Some dangerousMessage)
  /\ forall (E : Engine) (p : Process E),
      queryTool sql p
      = (Ret (handleDatabaseError (mkError dangerousMessage)), p)
      /\ executeTool sql p
         = (Ret (handleDatabaseError (mkError dangerousMessage)), p)
      /\ forall statements r p',
          In sql statements ->
          transactionTool statements p = (Ret r, p') -> isError r = true.
Proof.
  intros H. pose proof (dangerous_rejected sql H) as Hd.
  assert (isValid (validateSqlQuery sql) = false) as Hv by now rewrite Hd.
  split; [exact Hd|]. intros E p. split; [|split].
  - rewrite (query_rejected sql p Hv). now rewrite Hd.
  - rewrite (execute_rejected sql p Hv). now rewrite Hd.
  - intros statements r p' Hin Ht.
    exact (transaction_rejected sql statements p Hv Hin Ht).
Qed.

Lemma dangerous_text_anywhere_is_refused_witness :
  DangerousText (normalize (js "SELECT 'attach database' AS x"))
  /\ queryTool (js "SELECT 'attach database' AS x") Double.opened
     = (Ret (handleDatabaseError (mkError dangerousMessage)), Double.opened).
Proof.
  assert (DangerousText (normalize (js "SELECT 'attach database' AS x"))) as H.
  { right; left. exists (js "select '"), [32%N], (js "' as x").
    split; [reflexivity | exact spaces_one]. }
  split; [exact H|].
  apply (proj2 (dangerous_text_anywhere_is_refused _ H) Double.engine).
Defined.

(** C3: a text the validator classifies as mutating is answered by [query]
    with the error envelope; nothing is executed, no connection is opened, and
    the process, its database included, is as it was. *)
Theorem query_refuses_mutating_text (E : Engine) (sql : jsstring)
        (p : Process E) :
  verdict (validateSqlQuery sql) = Mutating ->
  queryTool sql p = (Ret (handleDatabaseError (mkError readOnlyOnly)), p).
Proof.
  unfold verdict, queryTool, tryCatch.
  destruct (isValid (validateSqlQuery sql)); [|discriminate].
  destruct (isReadOnly (validateSqlQuery sql)); [discriminate|].
  reflexivity.
Qed.

Lemma query_refuses_mutating_text_witness :
  verdict (validateSqlQuery (js "UPDATE t SET x=1")) = Mutating
  /\ queryTool (js "UPDATE t SET x=1") Double.opened
     = (Ret (mkToolResult
               [Plain (js "Database error: Only read-only queries are allowed. Use 'execute' tool for write operations.")]
               true),
        Double.opened).
Proof.
  split; [vm_compute; reflexivity|].
  apply (@query_refuses_mutating_text Double.engine (js "UPDATE t SET x=1")
           Double.opened).
  vm_compute; reflexivity.
Defined.

(** ** Errors at the handler boundary (C5) *)

Section Faults.
Context {E : Engine}.

Local Abbreviation Handled := (Handled (E:=E)).

Lemma handled_tryCatch (body : M E ToolResult) : Handled (tryCatch body caught).
Proof.
  intros p. unfold tryCatch, caught, ret.
  destruct (body p) as [[r|e] p1]; eauto.
Qed.

(** Nine of the ten handlers run entirely inside their [try]. *)
Lemma guarded_tools_handled :
  (forall sql, Handled (queryTool sql))
  /\ (forall sql, Handled (executeTool sql))
  /\ (forall tableName, Handled (describeTableTool tableName))
  /\ Handled listTablesTool
  /\ (forall name columns flag, Handled (createTableTool name columns flag))
  /\ (forall name flag, Handled (dropTableTool name flag))
  /\ (forall table data, Handled (insertRecordTool table data))
  /\ (forall table data whereText,
         Handled (updateRecordTool table data whereText))
  /\ (forall table whereText, Handled (deleteRecordTool table whereText)).
Proof. repeat split; intros; apply handled_tryCatch. Qed.

Lemma getDatabase_fails (p : Process E) (e : JsError) :
  db p = false -> connect E (DEFAULT_DB_PATH p) (disk p) = Some e ->
  getDatabase p
  = (Throw e, withDisk (disk p) (record (COpen (DEFAULT_DB_PATH p)) p)).
Proof.
  intros Hdb Hc.
  unfold getDatabase, initializeDatabase, tryCatch, driver, throw.
  now rewrite Hdb, Hc.
Qed.

Lemma getDatabase_cached (p : Process E) :
  db p = true -> getDatabase p = (Ret tt, p).
Proof. intros Hdb. unfold getDatabase. now rewrite Hdb. Qed.

Lemma getDatabase_opens (p : Process E) :
  db p = false -> connect E (DEFAULT_DB_PATH p) (disk p) = None ->
  getDatabase p
  = (Ret tt,
     withDb true (withDisk (disk p) (record (COpen (DEFAULT_DB_PATH p)) p))).
Proof.
  intros Hdb Hc.
  unfold getDatabase, initializeDatabase, tryCatch, driver.
  now rewrite Hdb, Hc.
Qed.

(** Acquiring the connection leaves the content of the database alone and
    records at most the opening. *)
Lemma getDatabase_ok (p p1 : Process E) :
  getDatabase p = (Ret tt, p1) ->
  disk p1 = disk p /\ db p1 = true
  /\ DEFAULT_DB_PATH p1 = DEFAULT_DB_PATH p
  /\ calls p1
     = calls p ++ (if db p then [] else [COpen (DEFAULT_DB_PATH p)]).
Proof.
  unfold getDatabase, initializeDatabase, tryCatch, driver, throw.
  destruct (db p) eqn:Hdb.
  - intros [= <-]. now rewrite app_nil_r.
  - destruct (connect E (DEFAULT_DB_PATH p) (disk p)); [discriminate|].
    intros [= <-]. simpl. auto.
Qed.

End Faults.

(** C5, where the code departs from it: in the [transaction] handler the
    connection is acquired before the [try], so a failure to open the database
    leaves the handler as a thrown error, not as an error envelope. *)
Theorem transaction_tool_lets_open_failure_escape (E : Engine)
        (statements : list jsstring) (p : Process E) (e : JsError) :
  db p = false ->
  connect E (DEFAULT_DB_PATH p) (disk p) = Some e ->
  fst (transactionTool statements p) = Throw e.
Proof.
  intros Hdb Hc. unfold transactionTool, bind.
  now rewrite (getDatabase_fails p Hdb Hc).
Qed.

Lemma transaction_tool_lets_open_failure_escape_witness :
  fst (transactionTool [js "SELECT 1"]
         (Double.fresh (js "/proc/1/database.db")))
  = Throw (mkError (js "unable to open database file")).
Proof.
  apply (@transaction_tool_lets_open_failure_escape Double.engine
           [js "SELECT 1"] (Double.fresh (js "/proc/1/database.db")));
    reflexivity.
Defined.

(** The sibling path: [list-tables] on the same process returns the error
    envelope. *)
Example list_tables_handles_open_failure :
  fst (listTablesTool (Double.fresh (js "/proc/1/database.db")))
  = Ret (mkToolResult
           [Plain (js "Database error: unable to open database file")] true).
Proof. reflexivity. Qed.

(** ** [describe-table] on a missing table (C9) *)

(** C9: when the lookup in [sqlite_master], with the table name bound as its
    parameter, finds no row, [describe-table] returns the error envelope for
    "Table '<tableName>' does not exist"; the lookup is the only statement
    sent to the driver, so no introspection pragma has run, and the content of
    the database is as before. *)
Theorem describe_table_missing (E : Engine) (tableName : jsstring)
        (p p1 : Process E) :
  getDatabase p = (Ret tt, p1) ->
  get E tableExistsSql [JStr tableName] (disk p) = (inr None, disk p) ->
  exists p',
    describeTableTool tableName p
    = (Ret (handleDatabaseError (mkError (doesNotExist tableName))), p')
    /\ disk p' = disk p
    /\ calls p'
       = calls p ++ (if db p then [] else [COpen (DEFAULT_DB_PATH p)])
                 ++ [CGet tableExistsSql [JStr tableName]].
Proof.
  intros Hg Hget. destruct (getDatabase_ok p Hg) as (Hd & _ & _ & Hc).
  unfold describeTableTool, tryCatch, bind at 1. rewrite Hg.
  unfold bind at 1, prepareGet, driver. rewrite Hd, Hget. simpl.
  eexists. split; [reflexivity|]. simpl.
  split; [reflexivity|]. now rewrite Hc, app_assoc.
Qed.

Lemma describe_table_missing_witness :
  exists p',
    describeTableTool (js "users") Double.opened
    = (Ret (mkToolResult
              [Plain (js "Database error: Table 'users' does not exist")] true),
       p')
    /\ disk p' = disk Double.opened
    /\ calls p' = [CGet tableExistsSql [JStr (js "users")]].
Proof.
  apply (@describe_table_missing Double.engine (js "users") Double.opened
           Double.opened); reflexivity.
Defined.

(** ** The structured builders (C6, C7) *)

Lemma columnDefinition_clauses (col : ColumnSpec) :
  columnDefinition col = columnClause col.
Proof.
  unfold columnDefinition, columnClause, clause, textSet.
  destruct (flagSet (primaryKey col)), (flagSet (notNull col)),
    (flagSet (unique col)), (defaultValue col) as [[|c v]|];
    cbn [option_map template toStr]; rewrite <- ?app_assoc, ?app_nil_r;
    reflexivity.
Qed.

(** C7: [create-table] emits, for each column, name and type followed in fixed
    order by [PRIMARY KEY], [NOT NULL], [UNIQUE] and [DEFAULT <value>] for
    what is set, joins the columns with commas, and wraps them in
    [CREATE TABLE [IF NOT EXISTS] <name> (...)]; an omitted [ifNotExists]
    counts as true; and this statement, without parameters, is the only one
    the tool sends to the driver. *)
Theorem create_table_statement (name : jsstring) (columns : list ColumnSpec)
        (ifNotExists : option bool) :
  createStatement name columns (defaultTrue ifNotExists)
  = createTableText name columns ifNotExists
  /\ createTableText name columns None
     = createTableText name columns (Some true)
  /\ forall E : Engine,
      Sends (Carries (createTableText name columns ifNotExists))
            (createTableTool (E:=E) name columns ifNotExists).
Proof.
  assert (createStatement name columns (defaultTrue ifNotExists)
          = createTableText name columns ifNotExists) as Heq.
  { unfold createStatement, createTableText.
    rewrite (map_ext _ _ columnDefinition_clauses).
    now destruct ifNotExists as [[|]|]. }
  split; [exact Heq|]. split; [reflexivity|]. intros E.
  unfold createTableTool, createTableHandler. rewrite Heq.
  apply sends_tryCatch; [|intros e; apply sends_ret].
  apply sends_bind; [apply sends_getDatabase; intros; exact I|]. intros _.
  apply sends_bind; [|intros result; apply sends_ret].
  apply sends_driver. reflexivity.
Qed.

Example create_table_example :
  createStatement (js "t2")
    [ mkColumn (js "id") (js "INTEGER") (Some true) None None None;
      mkColumn (js "label") (js "TEXT") None (Some true) (Some true)
               (Some (js "'none'")) ]
    (defaultTrue None)
  = js "CREATE TABLE IF NOT EXISTS t2 (id INTEGER PRIMARY KEY, label TEXT NOT NULL UNIQUE DEFAULT 'none')".
Proof. reflexivity. Qed.

Lemma map_const_repeat {A B} (b : B) (l : list A) :
  map (fun _ => b) l = repeat b (length l).
Proof. induction l; simpl; congruence. Qed.

Lemma indexed_none (data : JsObject.t) :
  Forall (fun kv => JsObject.arrayIndex (fst kv) = None) data ->
  JsObject.indexed data = [] /\ JsObject.named data = data.
Proof.
  unfold JsObject.named.
  induction 1 as [|[k v] data Hk _ [IH1 IH2]]; simpl in *; [auto|].
  now rewrite Hk, IH1, IH2.
Qed.

(** Without array-index keys, enumeration order is insertion order. *)
Lemma entries_insertion_order (data : JsObject.t) :
  Forall (fun kv => JsObject.arrayIndex (fst kv) = None) data ->
  JsObject.entries data = data.
Proof.
  intros H. unfold JsObject.entries.
  destruct (indexed_none H) as [-> ->]. reflexivity.
Qed.


Lemma jsstring_eqb_eq (a b : jsstring) : JsString.eqb a b = true -> a = b.
Proof.
  revert b; induction a as [|x a IH]; intros [|y b]; simpl; try discriminate.
  - reflexivity.
  - intros H. apply andb_true_iff in H as [Hx Hab].
    apply N.eqb_eq in Hx as ->. now rewrite (IH _ Hab).
Qed.



(** ** A failing batch (C4) *)

Section Batch.
Context {E : Engine}.

Local Abbreviation FailsWith := (FailsWith (E:=E)).

Lemma invalid_error (sql : jsstring) :
  isValid (validateSqlQuery sql) = false ->
  error (validateSqlQuery sql) = Some dangerousMessage.
Proof.
  unfold validateSqlQuery.
  destruct (existsb _ dangerousPatterns); [reflexivity|discriminate].
Qed.

Lemma runStatements_throws (stmts : list jsstring) :
  forall results (p : Process E) e p',
    runStatements stmts results p = (Throw e, p') -> FailsWith stmts e.
Proof.
  induction stmts as [|stmt rest IH]; intros results p e p'; simpl.
  - discriminate.
  - destruct (isValid (validateSqlQuery stmt)) eqn:Hv; simpl.
    + unfold bind, prepareRun, driver.
      destruct (run E stmt [] (disk p)) as [[e1|result] s1] eqn:Hrun.
      * intros [= <- <-]. exists [], stmt, rest.
        split; [reflexivity|]. split; [constructor|].
        right. split; [assumption|].
        exists (disk p). now rewrite Hrun.
      * intros H. destruct (IH _ _ _ _ H) as (done & st & rs & -> & Hd & He).
        exists (stmt :: done), st, rs.
        split; [reflexivity|]. split; [now constructor | exact He].
    + rewrite (invalid_error stmt Hv). intros [= <- <-].
      exists [], stmt, rest.
      split; [reflexivity|]. split; [constructor|]. left. now split.
Qed.

End Batch.

(** The double keeps the laws of a transactional engine. *)
Lemma double_bottom (x : Double.Snapshot) (l : list Double.Snapshot) :
  exists y, Double.bottom (x :: l) = Some y.
Proof.
  revert x. induction l as [|z l IH]; intros x; [now exists x|].
  destruct (IH z) as (y & Hy). exists y. exact Hy.
Qed.

Lemma double_begin_saves (s s' : Double.Store) :
  Double.txBegin s = (None, s') ->
  Double.inTransaction s' = true /\ Double.restore s' = s.
Proof.
  unfold Double.txBegin. destruct s as [t a r sv]. simpl.
  destruct sv; [|discriminate]. intros [= <-]. split; reflexivity.
Qed.

Lemma double_rollback_restores (s : Double.Store) :
  Double.inTransaction s = true ->
  Double.txRollback s = (None, Double.restore s).
Proof.
  unfold Double.inTransaction, Double.txRollback, Double.restore.
  destruct (Double.saved s) as [|x l]; [discriminate|]. intros _.
  destruct (double_bottom x l) as ([before rowsBefore] & ->). reflexivity.
Qed.

Lemma double_statement_keeps (stmt : jsstring) (s : Double.Store) :
  Double.inTransaction s = true ->
  Double.inTransaction (snd (Double.run stmt [] s)) = true ->
  Double.restore (snd (Double.run stmt [] s)) = Double.restore s.
Proof.
  intros Hin. unfold Double.run, Double.controlStatement.
  destruct (JsString.eqb (normalize stmt) (js "begin")).
  { unfold Double.txBegin. unfold Double.inTransaction in Hin.
    destruct (Double.saved s); [discriminate|]. reflexivity. }
  destruct (JsString.eqb (normalize stmt) (js "commit")).
  { unfold Double.txCommit. unfold Double.inTransaction in Hin.
    destruct (Double.saved s); [discriminate|]. discriminate. }
  destruct (JsString.eqb (normalize stmt) (js "rollback")).
  { unfold Double.txRollback. unfold Double.inTransaction in Hin.
    destruct (Double.saved s) as [|x l]; [discriminate|].
    destruct (double_bottom x l) as ([b r] & ->). discriminate. }
  destruct (JsString.includes stmt (js "nonexistent_table")); [reflexivity|].
  intros _. unfold Double.restore. simpl. unfold Double.inTransaction in Hin.
  destruct (Double.saved s) as [|x l]; [discriminate|].
  destruct (double_bottom x l) as ([b r] & ->). reflexivity.
Qed.

Lemma double_plain_keeps (stmt : jsstring) :
  Double.controlStatement stmt = None -> KeepsTransaction (E:=Double.engine) stmt.
Proof.
  intros Hc s Hin. simpl. unfold Double.run. rewrite Hc.
  destruct (JsString.includes stmt (js "nonexistent_table")); exact Hin.
Qed.


Section Rollback.
Context {E : Engine}.

Variable before : store E -> store E.

(** A batch of statements that leave the transaction open leaves it open,
    and leaves alone what undoing it restores. *)
Lemma runStatements_keeps (stmts : list jsstring) :
  (forall stmt s,
      inTransaction E s = true ->
      inTransaction E (snd (run E stmt [] s)) = true ->
      before (snd (run E stmt [] s)) = before s) ->
  Forall (fun stmt => isValid (validateSqlQuery stmt) = true ->
                      KeepsTransaction (E:=E) stmt) stmts ->
  forall results (p : Process E) r p',
    inTransaction E (disk p) = true ->
    runStatements stmts results p = (r, p') ->
    inTransaction E (disk p') = true /\ before (disk p') = before (disk p).
Proof.
  intros Hlaw. induction stmts as [|stmt rest IH];
    intros Hkeep results p r p' Hin; simpl.
  - intros [= <- <-]. auto.
  - inversion Hkeep as [|? ? Hstmt Hrest]; subst.
    destruct (isValid (validateSqlQuery stmt)) eqn:Hv; simpl.
    + pose proof (Hstmt eq_refl (disk p) Hin) as Hopen.
      pose proof (Hlaw stmt (disk p) Hin Hopen) as Hsame.
      unfold bind, prepareRun, driver.
      destruct (run E stmt [] (disk p)) as [[e1|result] s1]; simpl in *.
      * intros [= <- <-]. auto.
      * intros H.
        destruct (IH Hrest _ (withDisk s1 (record (CRun stmt []) p)) _ _
                     Hopen H) as (H1 & H2).
        split; [exact H1|]. rewrite H2. exact Hsame.
    + intros [= <- <-]. auto.
Qed.

End Rollback.



(** ** The database path (C8) *)

Section Startup.
Context {E : Engine}.

(** Whatever the arguments, a server started by [cli] opens the path that
    [index.ts] read from the environment when it was loaded. *)
Lemma cli_opens_loaded_path (args : list jsstring) (env : option jsstring)
      (s : store E) (p : Process E) :
  Cli.cli args env s = Cli.Serving p ->
  calls p = [] /\ db p = false
  /\ Cli.openedPath (calls (snd (getDatabase p))) = Some (Cli.envOrDefault env).
Proof.
  unfold Cli.cli, Cli.script, Cli.cliWith.
  destruct (Cli.parseArgs args env) as [config|code];
    [|discriminate].
  destruct (Cli.showHelp config); [discriminate|].
  destruct (Cli.showVersion config); [discriminate|].
  intros [= <-]. split; [reflexivity|]. split; [reflexivity|].
  unfold getDatabase, initializeDatabase, tryCatch, driver, throw. simpl.
  destruct (connect E (Cli.envOrDefault env) s); reflexivity.
Qed.

(** A help or version flag ends the process before the server starts, so
    before any connection. *)
Lemma cli_help_version_exit (args : list jsstring) (env : option jsstring)
      (s : store E) (config : Cli.Config) :
  Cli.parseArgs args env = Cli.Parse config ->
  Cli.showHelp config || Cli.showVersion config = true ->
  Cli.cli args env s = Cli.Exited 0.
Proof.
  unfold Cli.cli, Cli.script, Cli.cliWith. intros -> H.
  destruct (Cli.showHelp config); [reflexivity|].
  simpl in H. now rewrite H.
Qed.

End Startup.

(** Among the paths on the command line the last one is kept, flag or not. *)
Example parseArgs_last_path_wins :
  Cli.parseArgs [js "--db"; js "a.db"; js "b.db"] None
  = Cli.Parse (Cli.mkConfig false false (js "b.db"))
  /\ Cli.parseArgs [js "b.db"; js "--db"; js "a.db"] None
     = Cli.Parse (Cli.mkConfig false false (js "a.db")).
Proof. split; reflexivity. Qed.

(** C8, where the code departs from it: started with [--db ./my.db] and no
    environment variable, the wrapper stores [./my.db] in the environment,
    but the connection is opened on [./database.db], the value [index.ts]
    took when it was imported. *)
Theorem cli_db_flag_misses_connection (E : Engine) (s : store E) :
  exists p : Process E,
    Cli.cli [js "--db"; js "./my.db"] None s = Cli.Serving p
    /\ SQLITE_DB_PATH p = Some (js "./my.db")
    /\ Cli.openedPath (calls (snd (getDatabase p))) = Some (js "./database.db").
Proof.
  eexists. split; [reflexivity|]. split; [reflexivity|].
  unfold getDatabase, initializeDatabase, tryCatch, driver, throw. simpl.
  destruct (connect E _ s); reflexivity.
Qed.

(** * Further properties *)

(** ** Trimming and case *)

Module JsStringFacts.

Lemma whitespace_range (c : N) :
  JsString.isWhiteSpace c = true -> (c <= 32 \/ 160 <= c)%N.
Proof.
  unfold JsString.isWhiteSpace.
  rewrite !orb_true_iff, !andb_true_iff, !N.eqb_eq, !N.leb_le. lia.
Qed.

Lemma lowerUnit_whitespace (c : N) :
  JsString.isWhiteSpace (JsString.lowerUnit c) = JsString.isWhiteSpace c.
Proof.
  unfold JsString.lowerUnit.
  destruct ((65 <=? c) && (c <=? 90))%N eqn:Hc; [|reflexivity].
  apply andb_true_iff in Hc as [H1 H2].
  apply N.leb_le in H1, H2.
  destruct (JsString.isWhiteSpace (c + 32)) eqn:Ha.
  - apply whitespace_range in Ha. lia.
  - destruct (JsString.isWhiteSpace c) eqn:Hb; [|reflexivity].
    apply whitespace_range in Hb. lia.
Qed.

Lemma lowerUnit_idem (c : N) :
  JsString.lowerUnit (JsString.lowerUnit c) = JsString.lowerUnit c.
Proof.
  unfold JsString.lowerUnit.
  destruct ((65 <=? c) && (c <=? 90))%N eqn:Hc; [|now rewrite Hc].
  apply andb_true_iff in Hc as [H1 H2]. apply N.leb_le in H1, H2.
  destruct ((65 <=? c + 32) && (c + 32 <=? 90))%N eqn:Hd; [|reflexivity].
  apply andb_true_iff in Hd as [H3 H4]. apply N.leb_le in H3, H4. lia.
Qed.

Lemma trimStart_blank (l s : jsstring) :
  blank l -> JsString.trimStart (l ++ s) = JsString.trimStart s.
Proof.
  induction 1 as [|c l Hc _ IH]; simpl; [reflexivity|]. now rewrite Hc.
Qed.

Lemma trimStart_all_blank (l : jsstring) : blank l -> JsString.trimStart l = [].
Proof.
  intros H. rewrite <- (app_nil_r l), (trimStart_blank [] H). reflexivity.
Qed.

Lemma blank_rev (l : jsstring) : blank l -> blank (rev l).
Proof. apply Forall_rev. Qed.

Lemma trimEnd_blank (s r : jsstring) :
  blank r -> JsString.trimEnd (s ++ r) = JsString.trimEnd s.
Proof.
  intros H. unfold JsString.trimEnd.
  now rewrite rev_app_distr, (trimStart_blank _ (blank_rev H)).
Qed.

(** What [trimStart] returns does not start with whitespace, and is what is
    left of the text after a blank prefix. *)
Lemma trimStart_spec (s : jsstring) :
  exists l, s = l ++ JsString.trimStart s /\ blank l
            /\ match JsString.trimStart s with
               | c :: _ => JsString.isWhiteSpace c = false
               | [] => True
               end.
Proof.
  induction s as [|c s (l & Hs & Hl & Hh)]; simpl.
  - exists []. repeat split. constructor.
  - destruct (JsString.isWhiteSpace c) eqn:Hc.
    + exists (c :: l). simpl. rewrite <- Hs. repeat split; auto.
      now constructor.
    + exists []. repeat split; auto. constructor.
Qed.

Lemma trimStart_fixed (s : jsstring) :
  match s with
  | c :: _ => JsString.isWhiteSpace c = false
  | [] => True
  end -> JsString.trimStart s = s.
Proof. destruct s as [|c s]; simpl; [reflexivity|]. now intros ->. Qed.

Lemma trimStart_idem (s : jsstring) :
  JsString.trimStart (JsString.trimStart s) = JsString.trimStart s.
Proof.
  destruct (trimStart_spec s) as (l & _ & _ & H). now apply trimStart_fixed.
Qed.

Lemma trimEnd_idem (s : jsstring) :
  JsString.trimEnd (JsString.trimEnd s) = JsString.trimEnd s.
Proof.
  unfold JsString.trimEnd. now rewrite rev_involutive, trimStart_idem.
Qed.

(** Trimming the end of a text that does not start with whitespace leaves a
    text that does not start with whitespace. *)
Lemma trimEnd_keeps_head (s : jsstring) :
  JsString.trimStart s = s ->
  JsString.trimStart (JsString.trimEnd s) = JsString.trimEnd s.
Proof.
  intros Hs. destruct s as [|c s]; [reflexivity|].
  simpl in Hs. destruct (JsString.isWhiteSpace c) eqn:Hc.
  - exfalso. destruct (trimStart_spec s) as (l & Hl & _).
    apply (f_equal (@length N)) in Hl.
    rewrite length_app, Hs in Hl. simpl in Hl. lia.
  - clear Hs. unfold JsString.trimEnd.
    destruct (trimStart_spec (rev (c :: s))) as (l & Hl & Hb & _).
    apply (f_equal (@rev N)) in Hl. rewrite rev_involutive, rev_app_distr in Hl.
    destruct (rev (JsString.trimStart (rev (c :: s)))) as [|d t] eqn:Ht.
    + reflexivity.
    + simpl in Hl. injection Hl as <- _. simpl. now rewrite Hc.
Qed.

Lemma trim_idem (s : jsstring) :
  JsString.trim (JsString.trim s) = JsString.trim s.
Proof.
  unfold JsString.trim.
  rewrite (trimEnd_keeps_head (trimStart_idem s)). apply trimEnd_idem.
Qed.

Lemma trim_blank_end (s r : jsstring) :
  blank r -> JsString.trim (s ++ r) = JsString.trim s.
Proof.
  intros Hr. unfold JsString.trim. induction s as [|c s IH]; simpl.
  - rewrite (trimStart_all_blank Hr). reflexivity.
  - destruct (JsString.isWhiteSpace c); [exact IH|].
    now rewrite app_comm_cons, trimEnd_blank.
Qed.

(** Whitespace around a text does not change what [trim] returns. *)
Lemma trim_padding (l s r : jsstring) :
  blank l -> blank r -> JsString.trim (l ++ s ++ r) = JsString.trim s.
Proof.
  intros Hl Hr. rewrite <- (trim_blank_end s Hr).
  unfold JsString.trim. now rewrite trimStart_blank.
Qed.

Lemma trimStart_lower (s : jsstring) :
  JsString.trimStart (JsString.toLowerCase s)
  = JsString.toLowerCase (JsString.trimStart s).
Proof.
  unfold JsString.toLowerCase. induction s as [|c s IH]; simpl; [reflexivity|].
  rewrite lowerUnit_whitespace. now destruct (JsString.isWhiteSpace c).
Qed.

Lemma trim_lower (s : jsstring) :
  JsString.trim (JsString.toLowerCase s)
  = JsString.toLowerCase (JsString.trim s).
Proof.
  unfold JsString.trim, JsString.trimEnd. rewrite trimStart_lower.
  change (rev (JsString.toLowerCase (JsString.trimStart s)))
    with (rev (map JsString.lowerUnit (JsString.trimStart s))).
  rewrite <- map_rev.
  change (map JsString.lowerUnit (rev (JsString.trimStart s)))
    with (JsString.toLowerCase (rev (JsString.trimStart s))).
  rewrite trimStart_lower. unfold JsString.toLowerCase. now rewrite map_rev.
Qed.

Lemma lower_idem (s : jsstring) :
  JsString.toLowerCase (JsString.toLowerCase s) = JsString.toLowerCase s.
Proof.
  unfold JsString.toLowerCase. rewrite map_map.
  apply map_ext, lowerUnit_idem.
Qed.

Lemma normalize_idem (s : jsstring) : normalize (normalize s) = normalize s.
Proof.
  unfold normalize. now rewrite <- trim_lower, lower_idem, trim_lower, trim_idem.
Qed.

Lemma normalize_padding_case (l s r : jsstring) :
  blank l -> blank r ->
  normalize (l ++ JsString.toLowerCase s ++ r) = normalize s.
Proof.
  intros Hl Hr. unfold normalize.
  now rewrite trim_padding, trim_lower, lower_idem.
Qed.

End JsStringFacts.

(** ** More on the validator *)

Section ValidatorMore.
Import RegExpFacts ValidatorFacts JsStringFacts.

Lemma startsWith_split (s n : jsstring) :
  JsString.startsWith s n = true -> exists r, s = n ++ r.
Proof.
  revert s; induction n as [|x n IH]; intros s H; simpl in *.
  - now exists s.
  - destruct s as [|y s]; [discriminate|].
    apply andb_true_iff in H as [Hx Hs]. apply N.eqb_eq in Hx as ->.
    destruct (IH _ Hs) as [r ->]. now exists r.
Qed.

Lemma pragma_guard_inv (t : jsstring) :
  test (seq [Lit (js "pragma"); Plus CSpace; NotAhead allowListed]) t = true ->
  exists pre ws post,
    t = pre ++ js "pragma" ++ ws ++ post /\ spaces ws
    /\ forall n, In n allowedNames -> JsString.startsWith post n = false.
Proof.
  rewrite test_spec. cbn [seq Lang].
  intros (pre & w & post & -> & w1 & w2 & -> & -> & ws & w3 & -> & Hws
          & -> & Hn).
  exists pre, ws, post. rewrite app_nil_r, <- app_assoc.
  split; [reflexivity|]. split; [exact Hws|].
  intros n Hin. destruct (JsString.startsWith post n) eqn:Hs; [|reflexivity].
  destruct (startsWith_split _ _ Hs) as [r ->].
  elim Hn. exists n, r. split; [reflexivity|]. now apply Lang_allowListed.
Qed.

Lemma keyword_pair_inv (kw t : jsstring) :
  test (seq [Lit kw; Plus CSpace; Lit (js "database")]) t = true ->
  exists pre ws post, t = pre ++ kw ++ ws ++ js "database" ++ post /\ spaces ws.
Proof.
  rewrite test_spec. cbn [seq Lang].
  intros (pre & w & post & -> & w1 & w2 & -> & -> & ws & w3 & -> & Hws & ->).
  exists pre, ws, post. rewrite <- !app_assoc. auto.
Qed.

Lemma dangerous_detected_iff (t : jsstring) :
  existsb (fun pattern => test pattern t) dangerousPatterns = true
  <-> DangerousText t.
Proof.
  split; [|apply dangerous_detected].
  unfold dangerousPatterns, DangerousText. cbn [existsb].
  rewrite !orb_true_iff. intros [H|[H|[H|H]]]; [| | |discriminate].
  - left. now apply pragma_guard_inv.
  - right; left. now apply keyword_pair_inv.
  - right; right. now apply keyword_pair_inv.
Qed.

End ValidatorMore.

(** X1: the validator rejects a text exactly when its normalized form
    contains [pragma] and whitespace not followed by an allow-listed name, or
    [attach] / [detach], whitespace and [database]; nothing else is ever
    rejected. *)
Theorem validator_rejects_exactly (sql : jsstring) :
  isValid (validateSqlQuery sql) = false <-> DangerousText (normalize sql).
Proof.
  rewrite <- dangerous_detected_iff. unfold validateSqlQuery.
  destruct (existsb _ dangerousPatterns); simpl; split; congruence.
Qed.

(** X2: the verdict does not depend on letter case nor on whitespace around
    the text. *)
Theorem validator_ignores_case_and_padding (l sql r : jsstring) :
  blank l -> blank r ->
  validateSqlQuery (l ++ JsString.toLowerCase sql ++ r) = validateSqlQuery sql.
Proof.
  intros Hl Hr. unfold validateSqlQuery.
  now rewrite (JsStringFacts.normalize_padding_case sql Hl Hr).
Qed.

Lemma validator_ignores_case_and_padding_witness :
  validateSqlQuery (js "  " ++ JsString.toLowerCase (js "SELECT * FROM T")
                    ++ [10%N])
  = validateSqlQuery (js "SELECT * FROM T").
Proof.
  apply (@validator_ignores_case_and_padding (js "  ") (js "SELECT * FROM T")
           [10%N]); repeat constructor.
Defined.

(** X3: two whitespace characters after [pragma] make the text rejected
    whatever follows, an allow-listed name included: the pattern may stop
    after the first of them, where no allow-listed name starts. *)
Theorem pragma_two_spaces_rejected (sql pre post : jsstring) (c1 c2 : N) :
  normalize sql = pre ++ js "pragma" ++ c1 :: c2 :: post ->
  JsString.isWhiteSpace c1 = true -> JsString.isWhiteSpace c2 = true ->
  validateSqlQuery sql = mkValidation false false (Some dangerousMessage).
Proof.
  intros Hn H1 H2. apply ValidatorFacts.dangerous_rejected. left.
  exists pre, [c1], (c2 :: post). split; [exact Hn|]. split.
  - split; [discriminate|]. now repeat constructor.
  - apply JsStringFacts.whitespace_range in H2.
    intros n [<-|[<-|[<-|[]]]]; cbn [js list_ascii_of_string map JsString.startsWith];
      apply andb_false_iff; left; apply N.eqb_neq; vm_compute N_of_ascii; lia.
Qed.

Lemma pragma_two_spaces_rejected_witness :
  validateSqlQuery (js "PRAGMA  table_info(users)")
  = mkValidation false false (Some dangerousMessage).
Proof.
  apply (@pragma_two_spaces_rejected (js "PRAGMA  table_info(users)") []
           (js "table_info(users)") 32%N 32%N); reflexivity.
Defined.

(** X4: an empty or whitespace-only text is valid and mutating, so [query]
    refuses it with the read-only message. *)
Theorem blank_text_is_mutating (E : Engine) (sql : jsstring) (p : Process E) :
  blank sql ->
  validateSqlQuery sql = mkValidation true false None
  /\ queryTool sql p = (Ret (handleDatabaseError (mkError readOnlyOnly)), p).
Proof.
  intros Hb.
  assert (normalize sql = []) as Hn.
  { unfold normalize, JsString.trim.
    now rewrite (JsStringFacts.trimStart_all_blank Hb). }
  assert (validateSqlQuery sql = mkValidation true false None) as Hv.
  { unfold validateSqlQuery. rewrite Hn. reflexivity. }
  split; [exact Hv|].
  unfold queryTool, tryCatch. now rewrite Hv.
Qed.

Lemma blank_text_is_mutating_witness :
  validateSqlQuery (js "   ") = mkValidation true false None
  /\ queryTool (js "   ") Double.opened
     = (Ret (handleDatabaseError (mkError readOnlyOnly)), Double.opened).
Proof.
  apply (@blank_text_is_mutating Double.engine (js "   ") Double.opened).
  repeat constructor.
Defined.

(** ** One connection for the process *)

Section Singleton.
Context {E : Engine}.

Local Abbreviation StaysConnected := (StaysConnected (E:=E)).

Variable P : DriverCall -> Prop.

Lemma stays_ret {A} (a : A) : StaysConnected P (ret a).
Proof.
  intros p r p' Hdb [= <- <-]. split; [assumption|].
  exists []. now rewrite app_nil_r.
Qed.

Lemma stays_throw {A} (e : JsError) : StaysConnected P (throw (A:=A) e).
Proof.
  intros p r p' Hdb [= <- <-]. split; [assumption|].
  exists []. now rewrite app_nil_r.
Qed.

Lemma stays_then {A B} (m : M E A) (k : M E B) (p p1 p' : Process E)
      (r1 : Result A) (r : Result B) :
  StaysConnected P m -> StaysConnected P k -> db p = true ->
  m p = (r1, p1) -> k p1 = (r, p') ->
  db p' = true /\ exists new, calls p' = calls p ++ new /\ Forall P new.
Proof.
  intros Hm Hk Hdb H1 H2.
  destruct (Hm _ _ _ Hdb H1) as (Hdb1 & n1 & E1 & F1).
  destruct (Hk _ _ _ Hdb1 H2) as (Hdb2 & n2 & E2 & F2).
  split; [assumption|]. exists (n1 ++ n2).
  rewrite E2, E1, app_assoc. split; [reflexivity|]. now apply Forall_app.
Qed.

Lemma stays_bind {A B} (m : M E A) (f : A -> M E B) :
  StaysConnected P m -> (forall a, StaysConnected P (f a)) ->
  StaysConnected P (bind m f).
Proof.
  intros Hm Hf p r p' Hdb. unfold bind.
  destruct (m p) as [[a|e] p1] eqn:H1; intros H2.
  - eapply stays_then with (m := m) (k := f a); eauto.
  - injection H2 as <- <-. exact (Hm _ _ _ Hdb H1).
Qed.

Lemma stays_tryCatch {A} (body : M E A) (handler : JsError -> M E A) :
  StaysConnected P body -> (forall e, StaysConnected P (handler e)) ->
  StaysConnected P (tryCatch body handler).
Proof.
  intros Hm Hh p r p' Hdb. unfold tryCatch.
  destruct (body p) as [[a|e] p1] eqn:H1; intros H2.
  - injection H2 as <- <-. exact (Hm _ _ _ Hdb H1).
  - eapply stays_then with (m := body) (k := handler e); eauto.
Qed.

Lemma stays_driver {A} (c : DriverCall)
      (f : store E -> (JsError + A) * store E) :
  P c -> StaysConnected P (driver c f).
Proof.
  intros Hc p r p' Hdb. unfold driver.
  destruct (f (disk p)) as [[e|a] s]; intros [= <- <-];
    (split; [exact Hdb|]); exists [c]; simpl; auto.
Qed.

Lemma stays_getDatabase : StaysConnected P getDatabase.
Proof.
  intros p r p' Hdb. unfold getDatabase. rewrite Hdb.
  intros [= <- <-]. split; [assumption|]. exists []. now rewrite app_nil_r.
Qed.

Lemma stays_transaction {A} (fn : M E A) :
  (forall nested, P (cBefore nested) /\ P (cAfter nested) /\ P (cUndo nested)) ->
  StaysConnected P fn -> StaysConnected P (transaction fn).
Proof.
  intros H Hfn p0 r0 p0'. unfold transaction.
  destruct (H (inTransaction E (disk p0))) as (Hb & Hc & Hr).
  generalize (inTransaction E (disk p0)) Hb Hc Hr. clear Hb Hc Hr.
  intros nested Hb Hc Hr. revert p0 r0 p0'.
  change (StaysConnected P (wrapTransaction nested fn)).
  unfold wrapTransaction.
  apply stays_bind; [now apply stays_driver|]. intros _.
  apply stays_tryCatch.
  - apply stays_bind; [assumption|]. intros result.
    apply stays_bind; [now apply stays_driver|]. intros _. apply stays_ret.
  - intros ex p r p'. destruct (inTransaction E (disk p)).
    + apply stays_bind; [now apply stays_driver|]. intros _.
      apply stays_bind; [|intros _; apply stays_throw].
      destruct nested; [now apply stays_driver | apply stays_ret].
    + apply stays_throw.
Qed.

Lemma stays_runStatements (stmts : list jsstring) :
  (forall stmt, P (CRun stmt [])) ->
  forall results, StaysConnected P (runStatements stmts results).
Proof.
  intros HP. induction stmts as [|stmt rest IH]; intros results; simpl.
  - apply stays_ret.
  - destruct (isValid (validateSqlQuery stmt)); simpl.
    + apply stays_bind; [apply stays_driver; auto|]. intros result. apply IH.
    + apply stays_throw.
Qed.

(** A handler of the common shape: acquire the connection, run or read one
    statement, answer. *)
Lemma stays_guarded {A} (body : M E A) (k : A -> M E ToolResult) :
  StaysConnected P body -> (forall a, StaysConnected P (k a)) ->
  StaysConnected P
    (tryCatch (bind getDatabase (fun _ => bind body k)) caught).
Proof.
  intros Hb Hk. apply stays_tryCatch; [|intros e; apply stays_ret].
  apply stays_bind; [apply stays_getDatabase|]. intros _.
  now apply stays_bind.
Qed.

End Singleton.

Section SingletonTools.
Context {E : Engine}.

Local Abbreviation StaysConnected := (StaysConnected (E:=E)).

Ltac stays :=
  repeat first
    [ apply stays_ret | apply stays_throw | apply stays_getDatabase
    | apply stays_driver; exact I
    | apply stays_tryCatch; [|intros ?] | apply stays_bind; [|intros ?] ].

(** X5: once the process holds its connection, no tool opens another one
    and every tool leaves the connection in place: the connection is a
    singleton for the life of the process. *)
Theorem tools_stay_connected :
  (forall sql, StaysConnected NotOpen (queryTool sql))
  /\ (forall sql, StaysConnected NotOpen (executeTool sql))
  /\ (forall tableName, StaysConnected NotOpen (describeTableTool tableName))
  /\ StaysConnected NotOpen listTablesTool
  /\ (forall name columns flag,
         StaysConnected NotOpen (createTableTool name columns flag))
  /\ (forall name flag, StaysConnected NotOpen (dropTableTool name flag))
  /\ (forall table data, StaysConnected NotOpen (insertRecordTool table data))
  /\ (forall table data whereText,
         StaysConnected NotOpen (updateRecordTool table data whereText))
  /\ (forall table whereText,
         StaysConnected NotOpen (deleteRecordTool table whereText))
  /\ (forall statements, StaysConnected NotOpen (transactionTool statements)).
Proof.
  repeat apply conj; intros.
  - unfold queryTool. apply stays_tryCatch; [|intros ?; apply stays_ret].
    destruct (isValid (validateSqlQuery sql)); simpl; [|apply stays_ret].
    destruct (isReadOnly (validateSqlQuery sql)); simpl; [|apply stays_ret].
    stays.
  - unfold executeTool. apply stays_tryCatch; [|intros ?; apply stays_ret].
    destruct (isValid (validateSqlQuery sql)); simpl; [|apply stays_ret].
    stays.
  - unfold describeTableTool. apply stays_tryCatch; [|intros ?; apply stays_ret].
    apply stays_bind; [apply stays_getDatabase|]. intros _.
    apply stays_bind; [apply stays_driver; exact I|]. intros tableExists.
    destruct (truthy tableExists); simpl; stays.
  - unfold listTablesTool. stays.
  - unfold createTableTool, createTableHandler. stays.
  - unfold dropTableTool. stays.
  - unfold insertRecordTool. stays.
  - unfold updateRecordTool. stays.
  - unfold deleteRecordTool. stays.
  - unfold transactionTool.
    apply stays_bind; [apply stays_getDatabase|]. intros _.
    apply stays_tryCatch; [|intros ?; apply stays_ret].
    apply stays_bind; [|intros ?; apply stays_ret].
    apply stays_transaction;
      [intros nested; destruct nested; repeat split|].
    apply stays_runStatements. intros; exact I.
Qed.

End SingletonTools.

(** ** Answers and calls of the tools *)

Section Answers.
Context {E : Engine}.

Lemma transaction_answers (statements : list jsstring) (p : Process E) :
  db p = true -> exists r p', transactionTool statements p = (Ret r, p').
Proof.
  intros Hdb. unfold transactionTool, bind at 1.
  rewrite (getDatabase_cached p Hdb).
  apply (handled_tryCatch (E:=E)).
Qed.

End Answers.

(** X6: every tool answers every invocation with a response and never throws,
    the [transaction] tool as soon as the process holds its connection. *)
Theorem every_tool_answers (E : Engine) (p : Process E) :
  (forall sql, exists r p', queryTool sql p = (Ret r, p'))
  /\ (forall sql, exists r p', executeTool sql p = (Ret r, p'))
  /\ (forall tableName, exists r p', describeTableTool tableName p = (Ret r, p'))
  /\ (exists r p', listTablesTool p = (Ret r, p'))
  /\ (forall name columns flag,
         exists r p', createTableTool name columns flag p = (Ret r, p'))
  /\ (forall name flag, exists r p', dropTableTool name flag p = (Ret r, p'))
  /\ (forall table data, exists r p', insertRecordTool table data p = (Ret r, p'))
  /\ (forall table data whereText,
         exists r p', updateRecordTool table data whereText p = (Ret r, p'))
  /\ (forall table whereText,
         exists r p', deleteRecordTool table whereText p = (Ret r, p'))
  /\ (forall statements,
         db p = true -> exists r p', transactionTool statements p = (Ret r, p')).
Proof.
  destruct (guarded_tools_handled (E:=E))
    as (H1 & H2 & H3 & H4 & H5 & H6 & H7 & H8 & H9).
  repeat apply conj; intros.
  - apply H1. - apply H2. - apply H3. - apply H4. - apply H5.
  - apply H6. - apply H7. - apply H8. - apply H9.
  - now apply transaction_answers.
Qed.

Lemma every_tool_answers_witness :
  exists r p',
    transactionTool [js "INSERT INTO t(a) VALUES (1)"] Double.opened
    = (Ret r, p').
Proof.
  apply (every_tool_answers Double.opened). reflexivity.
Defined.

(** X7: a successful [getDatabase] is remembered, so the next call returns at
    once and touches nothing; a failed one is not, and leaves only the record
    of the attempt, so the next call tries again. *)
Theorem getDatabase_caches_success_only (E : Engine) (p p1 : Process E)
        (r : Result unit) :
  getDatabase p = (r, p1) ->
  match r with
  | Ret _ => db p1 = true /\ getDatabase p1 = (Ret tt, p1)
  | Throw _ =>
      db p1 = false /\ disk p1 = disk p
      /\ calls p1 = calls p ++ [COpen (DEFAULT_DB_PATH p)]
  end.
Proof.
  unfold getDatabase, initializeDatabase, tryCatch, driver, throw.
  destruct (db p) eqn:Hdb.
  - intros [= <- <-]. now rewrite Hdb.
  - destruct (connect E (DEFAULT_DB_PATH p) (disk p)); intros [= <- <-]; simpl.
    + auto.
    + auto.
Qed.

Lemma getDatabase_caches_success_only_witness :
  db (snd (getDatabase (Double.fresh (js "./database.db")))) = true
  /\ getDatabase (snd (getDatabase (Double.fresh (js "./database.db"))))
     = (Ret tt, snd (getDatabase (Double.fresh (js "./database.db")))).
Proof.
  apply (@getDatabase_caches_success_only Double.engine
           (Double.fresh (js "./database.db")) _ (Ret tt)).
  reflexivity.
Defined.

Section Forwarding.
Context {E : Engine}.

Local Abbreviation Sends := (Sends (E:=E)).

Ltac sends :=
  repeat first
    [ apply sends_ret | apply sends_throw
    | apply sends_getDatabase; intros ?; exact I
    | apply sends_driver; first [exact I | reflexivity]
    | apply sends_tryCatch; [|intros ?] | apply sends_bind; [|intros ?] ].

Lemma query_forwards (sql : jsstring) :
  Sends (OnlyCall (CAll sql [])) (queryTool sql).
Proof.
  unfold queryTool. apply sends_tryCatch; [|intros ?; apply sends_ret].
  destruct (isValid (validateSqlQuery sql)); simpl; [|apply sends_ret].
  destruct (isReadOnly (validateSqlQuery sql)); simpl; [|apply sends_ret].
  sends.
Qed.

Lemma execute_forwards (sql : jsstring) :
  Sends (OnlyCall (CRun sql [])) (executeTool sql).
Proof.
  unfold executeTool. apply sends_tryCatch; [|intros ?; apply sends_ret].
  destruct (isValid (validateSqlQuery sql)); simpl; [|apply sends_ret].
  sends.
Qed.

Lemma describe_reads (tableName : jsstring) :
  Sends ReadCall (describeTableTool tableName).
Proof.
  unfold describeTableTool. apply sends_tryCatch; [|intros ?; apply sends_ret].
  apply sends_bind; [apply sends_getDatabase; intros ?; exact I|]. intros _.
  apply sends_bind; [apply sends_driver; exact I|]. intros tableExists.
  destruct (truthy tableExists); simpl; sends.
Qed.

Lemma list_reads : Sends ReadCall listTablesTool.
Proof. unfold listTablesTool. sends. Qed.

Lemma query_reads (sql : jsstring) : Sends ReadCall (queryTool sql).
Proof.
  unfold queryTool. apply sends_tryCatch; [|intros ?; apply sends_ret].
  destruct (isValid (validateSqlQuery sql)); simpl; [|apply sends_ret].
  destruct (isReadOnly (validateSqlQuery sql)); simpl; [|apply sends_ret].
  sends.
Qed.

End Forwarding.

(** X8: [query] and [execute] hand the driver the caller's text as it was
    given, neither trimmed nor lower-cased, and never with a bound parameter;
    [query] only through [all], [execute] only through [run], and neither
    sends any other statement. *)
Theorem raw_text_forwarded_verbatim (E : Engine) (sql : jsstring) :
  Sends (OnlyCall (CAll sql [])) (queryTool (E:=E) sql)
  /\ Sends (OnlyCall (CRun sql [])) (executeTool (E:=E) sql).
Proof. split; [apply query_forwards | apply execute_forwards]. Qed.

(** X9: [query], [describe-table] and [list-tables] never ask the driver to
    [run] a statement nor to begin, commit or roll back: they only open the
    connection and read through [all] and [get]. *)
Theorem read_tools_only_read (E : Engine) :
  (forall sql, Sends ReadCall (queryTool (E:=E) sql))
  /\ (forall tableName, Sends ReadCall (describeTableTool (E:=E) tableName))
  /\ Sends ReadCall (listTablesTool (E:=E)).
Proof.
  repeat apply conj; intros;
    [apply query_reads | apply describe_reads | apply list_reads].
Qed.

(** ** One statement for each structured tool *)

Section OneStatement.
Context {E : Engine}.

(** The calls of a handler that acquires the connection and runs one
    statement inside its [try]. *)
Lemma guarded_run_calls (stmt : jsstring) (params : list json)
      (k : RunResult -> ToolResult) (p : Process E) :
  calls (snd (tryCatch
                (bind getDatabase (fun _ =>
                 bind (prepareRun stmt params) (fun result =>
                 ret (k result))))
                caught p))
  = calls p ++ opening p
    ++ (if acquires p then [CRun stmt params] else []).
Proof.
  unfold tryCatch, bind, getDatabase, initializeDatabase, tryCatch, prepareRun,
    driver, throw, caught, ret, opening, acquires.
  destruct (db p) eqn:Hdb; simpl.
  - destruct (run E stmt params (disk p)) as [[e|result] s]; reflexivity.
  - destruct (connect E (DEFAULT_DB_PATH p) (disk p)); simpl.
    + reflexivity.
    + destruct (run E stmt params (disk p)) as [[e|result] s]; simpl;
        now rewrite <- app_assoc.
Qed.

End OneStatement.

(** X10: each structured tool sends the driver exactly one statement, the one
    it built, with the values of the map as parameters for [insert-record]
    and [update-record] and none for the others; it sends it whether or not
    the statement then fails, and sends nothing when no connection can be
    had. *)
Theorem structured_tools_send_one_statement (E : Engine) (p : Process E) :
  (forall name columns flag,
      calls (snd (createTableTool name columns flag p))
      = calls p ++ opening p
        ++ (if acquires p
            then [CRun (createStatement name columns (defaultTrue flag)) []]
            else []))
  /\ (forall name flag,
         calls (snd (dropTableTool name flag p))
         = calls p ++ opening p
           ++ (if acquires p
               then [CRun (dropStatement name (defaultTrue flag)) []]
               else []))
  /\ (forall table data,
         calls (snd (insertRecordTool table data p))
         = calls p ++ opening p
           ++ (if acquires p
               then [CRun (insertStatement table data) (JsObject.values data)]
               else []))
  /\ (forall table data whereText,
         calls (snd (updateRecordTool table data whereText p))
         = calls p ++ opening p
           ++ (if acquires p
               then [CRun (updateStatement table data whereText)
                          (JsObject.values data)]
               else []))
  /\ (forall table whereText,
         calls (snd (deleteRecordTool table whereText p))
         = calls p ++ opening p
           ++ (if acquires p
               then [CRun (deleteStatement table whereText) []]
               else [])).
Proof.
  repeat apply conj; intros; apply guarded_run_calls.
Qed.

(** ** The batch of the [transaction] tool *)

Section BatchOrder.
Context {E : Engine}.

(** Whatever the outcome, the loop has sent a prefix of the batch, in order;
    when it returns, it has sent all of it and added one result for each
    statement, carrying the statement's text. *)
Lemma runStatements_prefix (stmts : list jsstring) :
  forall results (p : Process E) r p',
    runStatements stmts results p = (r, p') ->
    db p' = db p /\ DEFAULT_DB_PATH p' = DEFAULT_DB_PATH p
    /\ exists k,
        calls p' = calls p ++ map sends_run (firstn k stmts)
        /\ match r with
           | Ret all =>
               k = length stmts
               /\ exists added,
                   all = results ++ added
                   /\ map (prop "sql") added
                      = map (fun stmt => Some (JStr stmt)) stmts
           | Throw _ => True
           end.
Proof.
  induction stmts as [|stmt rest IH]; intros results p r p'; simpl.
  - intros [= <- <-]. repeat split. exists 0. simpl. rewrite app_nil_r.
    split; [reflexivity|]. split; [reflexivity|].
    exists []. now rewrite app_nil_r.
  - destruct (isValid (validateSqlQuery stmt)); simpl.
    + unfold bind, prepareRun, driver.
      destruct (run E stmt [] (disk p)) as [[e|result] s].
      * intros [= <- <-]. repeat split. exists 1. simpl.
        split; [reflexivity | exact I].
      * intros H. destruct (IH _ _ _ _ H) as (Hdb & Hpath & k & Hc & Hr).
        split; [exact Hdb|]. split; [exact Hpath|].
        exists (S k). simpl in *. rewrite Hc, <- app_assoc.
        split; [reflexivity|]. destruct r as [all|e]; [|exact I].
        destruct Hr as (-> & added & -> & Hm). split; [reflexivity|].
        eexists (_ :: added). rewrite <- app_assoc. split; [reflexivity|].
        simpl. now rewrite Hm.
    + intros [= <- <-]. repeat split. exists 0. simpl. now rewrite app_nil_r.
Qed.

End BatchOrder.

Section BatchCalls.
Context {E : Engine}.

Lemma getDatabase_calls (p p1 : Process E) (r : Result unit) :
  getDatabase p = (r, p1) ->
  calls p1 = calls p ++ opening p /\ disk p1 = disk p
  /\ DEFAULT_DB_PATH p1 = DEFAULT_DB_PATH p.
Proof.
  unfold getDatabase, initializeDatabase, tryCatch, driver, throw, opening.
  destruct (db p).
  - intros [= <- <-]. now rewrite app_nil_r.
  - destruct (connect E (DEFAULT_DB_PATH p) (disk p)); intros [= <- <-];
      simpl; auto.
Qed.

Lemma control_calls (c : DriverCall) (f : store E -> option JsError * store E)
      (p p1 : Process E) (r : Result unit) :
  control c f p = (r, p1) ->
  calls p1 = calls p ++ [c] /\ db p1 = db p
  /\ DEFAULT_DB_PATH p1 = DEFAULT_DB_PATH p
  /\ disk p1 = snd (f (disk p))
  /\ (r = Ret tt <-> fst (f (disk p)) = None).
Proof.
  unfold control, driver.
  destruct (f (disk p)) as [[e|] s]; intros [= <- <-]; simpl;
    repeat split; congruence.
Qed.

(** The calls of the wrapper around a body: its opening statement, the
    body's calls, then its closing statement, its undoing statement, both or
    neither. *)
Lemma wrapTransaction_calls {A} (nested : bool) (fn : M E A)
      (p p' : Process E) (r : Result A) :
  wrapTransaction nested fn p = (r, p') ->
  exists post,
    Forall ControlCall post
    /\ ((calls p' = calls p ++ [cBefore nested] /\ post = []
         /\ fst (txBefore nested (disk p)) <> None)
        \/ exists q r1 q1,
            control (cBefore nested) (txBefore nested) p = (Ret tt, q)
            /\ fn q = (r1, q1)
            /\ calls p' = calls q1 ++ post).
Proof.
  assert (forall (ex : JsError) (q2 : Process E) (r2 : Result A) (q3 : Process E),
             (if inTransaction E (disk q2)
              then bind (control (cUndo nested) (txUndo nested)) (fun _ =>
                   bind (if nested
                         then control (cAfter nested) (txAfter nested)
                         else ret tt) (fun _ => throw ex)) q2
              else throw ex q2) = (r2, q3) ->
             exists post, Forall ControlCall post
                          /\ calls q3 = calls q2 ++ post) as Hundo.
  { intros ex q2 r2 q3. destruct (inTransaction E (disk q2)).
    - unfold bind at 1.
      destruct (control (cUndo nested) (txUndo nested) q2)
        as [[[]|e'] q4] eqn:Hr;
        destruct (control_calls _ _ _ Hr) as (Hq4 & _).
      + unfold bind at 1. destruct nested.
        * destruct (control (cAfter true) (txAfter true) q4)
            as [[[]|e''] q5] eqn:Ha;
            destruct (control_calls _ _ _ Ha) as (Hq5 & _);
            intros [= <- <-]; exists [CRollbackTo; CRelease];
            (split; [repeat constructor|]);
            rewrite Hq5, Hq4, <- app_assoc; reflexivity.
        * intros [= <- <-]. exists [CRollback].
          split; [repeat constructor | exact Hq4].
      + intros [= <- <-]. exists [cUndo nested].
        split; [destruct nested; repeat constructor | exact Hq4].
    - intros [= <- <-]. exists []. split; [constructor|].
      now rewrite app_nil_r. }
  unfold wrapTransaction, bind at 1.
  destruct (control (cBefore nested) (txBefore nested) p) as [[[]|e] q] eqn:Hb.
  - unfold tryCatch, bind at 1.
    destruct (fn q) as [[a|e] q1] eqn:Hfn.
    + unfold bind at 1.
      destruct (control (cAfter nested) (txAfter nested) q1)
        as [[[]|e] q2] eqn:Hc;
        destruct (control_calls _ _ _ Hc) as (Hq2 & _).
      * intros [= <- <-]. exists [cAfter nested].
        split; [destruct nested; repeat constructor|].
        right. exists q, (Ret a), q1. auto.
      * intros H. destruct (Hundo _ _ _ _ H) as (post & Hpost & Hq3).
        exists (cAfter nested :: post).
        split; [constructor; [destruct nested; reflexivity | exact Hpost]|].
        right. exists q, (Ret a), q1. rewrite Hq3, Hq2, <- app_assoc. auto.
    + intros H. destruct (Hundo _ _ _ _ H) as (post & Hpost & Hq3).
      exists post. split; [exact Hpost|].
      right. exists q, (Throw e), q1. auto.
  - intros [= <- <-]. exists []. split; [constructor|]. left.
    destruct (control_calls _ _ _ Hb) as (-> & _ & _ & _ & Hr).
    repeat split. intros Hn. apply Hr in Hn. discriminate.
Qed.

(** The loop sends what [sent] tells, whatever its outcome. *)
Lemma runStatements_sent (stmts : list jsstring) :
  forall results (p : Process E) r p',
    runStatements stmts results p = (r, p') ->
    calls p' = calls p ++ map sends_run (sent stmts (disk p)).
Proof.
  induction stmts as [|stmt rest IH]; intros results p r p'; simpl.
  - intros [= <- <-]. now rewrite app_nil_r.
  - destruct (isValid (validateSqlQuery stmt)); simpl.
    + unfold bind, prepareRun, driver.
      destruct (run E stmt [] (disk p)) as [[e|result] s].
      * intros [= <- <-]. reflexivity.
      * intros H. rewrite (IH _ _ _ _ H). simpl.
        now rewrite <- app_assoc.
    + intros [= <- <-]. now rewrite app_nil_r.
Qed.

End BatchCalls.

(** X11: the statements the [transaction] tool sends to the driver are the
    statements of the batch, in the order given, each once and without
    parameters, up to the first one the validator rejects, which is not
    sent, or through the first one the driver throws back, which is the last
    sent: no statement after a failing one is sent.  They follow the opening
    of the connection (if none is held) and the opening statement of the
    wrapper, [BEGIN] or, inside an open transaction, [SAVEPOINT]; when that
    statement fails nothing follows it; after the statements come only calls
    that carry no statement (the closing and undoing statements of the
    wrapper). *)
Theorem transaction_sends_until_failure (E : Engine)
        (statements : list jsstring) (p : Process E) :
  exists post,
    Forall ControlCall post
    /\ calls (snd (transactionTool statements p))
       = calls p ++ opening p
         ++ (if acquires p
             then cBefore (inTransaction E (disk p))
                  :: match txBefore (inTransaction E (disk p)) (disk p) with
                     | (None, s1) => map sends_run (sent statements s1) ++ post
                     | (Some _, _) => []
                     end
             else []).
Proof.
  unfold transactionTool, bind at 1.
  destruct (getDatabase p) as [[[]|e0] p1] eqn:Hg;
    destruct (getDatabase_calls p Hg) as (Hc1 & Hd1 & _).
  - assert (acquires p = true) as ->.
    { unfold acquires. revert Hg.
      unfold getDatabase, initializeDatabase, tryCatch, driver, throw.
      destruct (db p); [reflexivity|].
      destruct (connect E (DEFAULT_DB_PATH p) (disk p)); [discriminate|].
      reflexivity. }
    unfold tryCatch, bind at 1. unfold transaction. rewrite Hd1.
    destruct (wrapTransaction (inTransaction E (disk p))
                (runStatements statements []) p1) as [r1 p2] eqn:Ht.
    destruct (wrapTransaction_calls _ _ _ Ht)
      as (post & Hpost & [(Hc & -> & Hfail)|(q & r2 & q1 & Hb & Hrun & Hc)]).
    + exists []. split; [constructor|].
      rewrite Hd1 in Hfail.
      destruct (txBefore (inTransaction E (disk p)) (disk p)) as [[e|] s1];
        [|now elim Hfail].
      destruct r1; simpl; rewrite Hc, Hc1, <- app_assoc; reflexivity.
    + exists post. split; [exact Hpost|].
      destruct (control_calls _ _ _ Hb) as (Hq & _ & _ & Hdq & Hok).
      rewrite Hd1 in Hdq, Hok.
      destruct (txBefore (inTransaction E (disk p)) (disk p)) as [[e|] s1];
        [destruct Hok as [Hok _]; specialize (Hok eq_refl); discriminate|].
      simpl in Hdq.
      rewrite (runStatements_sent _ _ _ Hrun), Hdq, Hq, Hc1 in Hc.
      destruct r1; simpl; rewrite Hc, <- !app_assoc; reflexivity.
  - assert (acquires p = false) as ->.
    { unfold acquires. revert Hg.
      unfold getDatabase, initializeDatabase, tryCatch, driver, throw.
      destruct (db p); [discriminate|].
      destruct (connect E (DEFAULT_DB_PATH p) (disk p)); [reflexivity|].
      discriminate. }
    exists []. split; [constructor|]. simpl. now rewrite Hc1, app_nil_r.
Qed.

(** X12: when the [transaction] tool reports success, the driver has seen,
    after the opening of the connection if none was held, the opening
    statement of the wrapper ([BEGIN], or [SAVEPOINT] when the connection was
    inside a transaction), every statement of the batch once, in order and
    without parameters, and the closing statement ([COMMIT], or [RELEASE]),
    and nothing else; the response lists one result for each statement, in
    order, each carrying the text of its statement, with [totalStatements]
    the size of the batch. *)
Theorem transaction_success_is_complete (E : Engine)
        (statements : list jsstring) (p p' : Process E) (r : ToolResult) :
  transactionTool statements p = (Ret r, p') ->
  isError r = false ->
  calls p'
  = calls p ++ opening p
    ++ cBefore (inTransaction E (disk p))
       :: map sends_run statements ++ [cAfter (inTransaction E (disk p))]
  /\ exists results,
      r = success (JObj
            [ (js "message", JStr (js "Transaction completed successfully"));
              (js "results", JArr results);
              (js "totalStatements", JNum (Z.of_nat (length statements))) ])
      /\ map (prop "sql") results
         = map (fun stmt => Some (JStr stmt)) statements.
Proof.
  unfold transactionTool, bind at 1.
  destruct (getDatabase p) as [[[]|e0] p1] eqn:Hg; [|discriminate].
  destruct (getDatabase_calls p Hg) as (Hc1 & Hd1 & _).
  unfold tryCatch, bind at 1.
  destruct (transaction (runStatements statements []) p1)
    as [[results|e1] p2] eqn:Ht.
  - intros [= <- <-] _. unfold transaction in Ht. rewrite Hd1 in Ht.
    destruct (wrapTransaction_returns _ _ _ Ht) as (q & q1 & Hb & Hrun & Hc).
    destruct (control_calls _ _ _ Hb) as (Hq & _).
    destruct (control_calls _ _ _ Hc) as (Hp2 & _).
    destruct (runStatements_prefix _ _ _ Hrun)
      as (_ & _ & k & Hk & -> & added & Ha & Hm).
    rewrite firstn_all in Hk. simpl in Ha. subst added. split.
    + rewrite Hp2, Hk, Hq, Hc1, <- !app_assoc. reflexivity.
    + exists results. split; [reflexivity | exact Hm].
  - unfold caught, ret. intros [= <- <-]. discriminate.
Qed.

Lemma transaction_success_is_complete_witness :
  calls (snd (transactionTool [js "INSERT INTO t(a) VALUES (1)";
                               js "INSERT INTO t(a) VALUES (2)"]
                              Double.opened))
  = [ CBegin; CRun (js "INSERT INTO t(a) VALUES (1)") [];
      CRun (js "INSERT INTO t(a) VALUES (2)") []; CCommit ].
Proof.
  edestruct (@transaction_success_is_complete Double.engine
               [js "INSERT INTO t(a) VALUES (1)";
                js "INSERT INTO t(a) VALUES (2)"] Double.opened) as [H _].
  - vm_compute. reflexivity.
  - reflexivity.
  - exact H.
Defined.

(** ** Keys and values of a record *)

Section Records.

Lemma insertIndexed_perm (e : N * (jsstring * json)) l :
  Permutation (JsObject.insertIndexed e l) (e :: l).
Proof.
  induction l as [|x l IH]; simpl; [reflexivity|].
  destruct (fst e <? fst x)%N; [reflexivity|].
  rewrite IH. apply perm_swap.
Qed.

Lemma entries_perm (o : JsObject.t) : Permutation (JsObject.entries o) o.
Proof.
  unfold JsObject.entries, JsObject.named.
  induction o as [|[k v] o IH]; simpl; [reflexivity|].
  destruct (JsObject.arrayIndex k) as [n|]; simpl.
  - rewrite insertIndexed_perm. simpl. now constructor.
  - rewrite <- Permutation_middle. now constructor.
Qed.

Lemma combine_fst_snd {A B} (l : list (A * B)) :
  combine (map fst l) (map snd l) = l.
Proof. induction l as [|[a b] l IH]; simpl; congruence. Qed.

Lemma insertIndexed_sorted (e : N * (jsstring * json)) l :
  StronglySorted byIndex l -> StronglySorted byIndex (JsObject.insertIndexed e l).
Proof.
  induction 1 as [|x l Hs IH Hx]; simpl.
  - repeat constructor.
  - destruct (N.ltb_spec (fst e) (fst x)) as [Hlt|Hge].
    + constructor; [now constructor|]. constructor.
      * unfold byIndex. lia.
      * eapply Forall_impl; [|exact Hx]. unfold byIndex. intros a Ha. lia.
    + constructor; [exact IH|].
      eapply Permutation_Forall; [symmetry; apply insertIndexed_perm|].
      constructor; [exact Hge | exact Hx].
Qed.

Lemma indexed_sorted (o : JsObject.t) : StronglySorted byIndex (JsObject.indexed o).
Proof.
  induction o as [|[k v] o IH]; simpl; [constructor|].
  destruct (JsObject.arrayIndex k); [now apply insertIndexed_sorted | exact IH].
Qed.

Lemma indexed_keys (o : JsObject.t) :
  Forall (fun e => JsObject.arrayIndex (fst (snd e)) = Some (fst e))
         (JsObject.indexed o).
Proof.
  induction o as [|[k v] o IH]; simpl; [constructor|].
  destruct (JsObject.arrayIndex k) as [n|] eqn:Hk; [|exact IH].
  eapply Permutation_Forall; [symmetry; apply insertIndexed_perm|].
  now constructor.
Qed.

End Records.

(** X13: for every map, [insert-record] and [update-record] bind as many
    values as they write placeholders, and the value in each position is the
    one the map holds under the key in that position: keys paired with
    values are the members of the map, none lost, none repeated. *)
Theorem record_values_follow_keys (table whereText : jsstring)
        (data : JsObject.t) :
  insertStatement table data = insertText table (JsObject.keys data)
  /\ updateStatement table data whereText
     = js "UPDATE " ++ table ++ js " SET "
       ++ JsString.join (js ", ")
            (map (fun key => key ++ js " = ?") (JsObject.keys data))
       ++ js " WHERE " ++ whereText
  /\ length (JsObject.values data) = length (JsObject.keys data)
  /\ length (JsObject.keys data) = length data
  /\ Permutation (combine (JsObject.keys data) (JsObject.values data)) data.
Proof.
  unfold JsObject.keys, JsObject.values. repeat apply conj.
  - unfold insertStatement, insertText, JsObject.keys.
    now rewrite map_const_repeat.
  - reflexivity.
  - now rewrite !length_map.
  - rewrite length_map. apply Permutation_length, entries_perm.
  - rewrite combine_fst_snd. apply entries_perm.
Qed.

(** X14: the columns of [insert-record] and [update-record] come in two
    runs: first the keys that are array indices, in ascending numeric order,
    then the other keys in the order the map holds them. *)
Theorem record_keys_order (data : JsObject.t) :
  exists indices : list (N * (jsstring * json)),
    JsObject.keys data
    = map (fun e => fst (snd e)) indices ++ map fst (JsObject.named data)
    /\ StronglySorted byIndex indices
    /\ Forall (fun e => JsObject.arrayIndex (fst (snd e)) = Some (fst e)
                        /\ In (snd e) data) indices
    /\ JsObject.named data
       = filter (fun kv => match JsObject.arrayIndex (fst kv) with
                           | Some _ => false
                           | None => true
                           end) data.
Proof.
  exists (JsObject.indexed data). repeat apply conj.
  - unfold JsObject.keys, JsObject.entries.
    now rewrite map_app, map_map.
  - apply indexed_sorted.
  - apply Forall_forall. intros e He. split.
    + exact (proj1 (Forall_forall _ _) (indexed_keys data) e He).
    + apply (Permutation_in _ (entries_perm data)).
      unfold JsObject.entries. apply in_or_app. left. now apply in_map.
  - reflexivity.
Qed.

(** ** The command line *)

Section CommandLine.

Lemma eqb_eq (a b : jsstring) : JsString.eqb a b = true -> a = b.
Proof.
  revert b; induction a as [|x a IH]; intros [|y b]; simpl; try discriminate.
  - reflexivity.
  - intros H. apply andb_true_iff in H as [Hx Hab].
    apply N.eqb_eq in Hx as ->. now rewrite (IH _ Hab).
Qed.

(** A text that does not start with a dash is none of the options. *)
Lemma not_option (path : jsstring) (opt : string) :
  JsString.startsWith path (js "-") = false ->
  JsString.startsWith (js opt) (js "-") = true ->
  JsString.eqb path (js opt) = false.
Proof.
  intros Hp Ho. destruct (JsString.eqb path (js opt)) eqn:He; [|reflexivity].
  apply eqb_eq in He. congruence.
Qed.

Lemma parseLoop_path (path : jsstring) (config : Cli.Config) :
  JsString.startsWith path (js "-") = false ->
  forall rest,
    Cli.parseLoop (path :: rest) config
    = Cli.parseLoop rest
        (Cli.mkConfig (Cli.showHelp config) (Cli.showVersion config) path).
Proof.
  intros Hp rest. cbn [Cli.parseLoop].
  rewrite !(@not_option path _ Hp) by reflexivity. now rewrite Hp.
Qed.

Lemma parseLoop_last (path : jsstring) :
  JsString.startsWith path (js "-") = false ->
  forall n args config result,
    length args <= n ->
    Cli.parseLoop (args ++ [path]) config = Cli.Parse result ->
    Cli.dbPath result = path.
Proof.
  intros Hp. induction n as [|n IH]; intros args config result Hlen.
  - destruct args; [|simpl in Hlen; lia]. simpl app.
    rewrite (@parseLoop_path path config Hp). now intros [= <-].
  - destruct args as [|arg rest].
    + simpl app. rewrite (@parseLoop_path path config Hp). now intros [= <-].
    + simpl in Hlen. simpl app. cbn [Cli.parseLoop].
      destruct (JsString.eqb arg (js "--help") || JsString.eqb arg (js "-h"));
        [apply IH; lia|].
      destruct (JsString.eqb arg (js "--version")
                || JsString.eqb arg (js "-v")); [apply IH; lia|].
      destruct (JsString.eqb arg (js "--db")
                || JsString.eqb arg (js "--database")).
      * destruct rest as [|value rest]; simpl app.
        -- now intros [= <-].
        -- apply IH. simpl in Hlen. lia.
      * destruct (JsString.startsWith arg (js "-")); [discriminate|].
        apply IH. lia.
Qed.

Lemma parseLoop_exit (n : nat) :
  forall args config code,
    length args <= n ->
    Cli.parseLoop args config = Cli.ParseExit code -> code = 1%Z.
Proof.
  induction n as [|n IH]; intros args config code Hlen.
  - destruct args; [discriminate | simpl in Hlen; lia].
  - destruct args as [|arg rest]; [discriminate|].
    simpl in Hlen. cbn [Cli.parseLoop].
    destruct (JsString.eqb arg (js "--help") || JsString.eqb arg (js "-h"));
      [apply IH; lia|].
    destruct (JsString.eqb arg (js "--version")
              || JsString.eqb arg (js "-v")); [apply IH; lia|].
    destruct (JsString.eqb arg (js "--db")
              || JsString.eqb arg (js "--database")).
    + destruct rest as [|value rest]; [now intros [= <-]|].
      apply IH. simpl in Hlen. lia.
    + destruct (JsString.startsWith arg (js "-")); [now intros [= <-]|].
      apply IH. lia.
Qed.

Lemma parseLoop_origin (n : nat) :
  forall args config result,
    length args <= n ->
    Cli.parseLoop args config = Cli.Parse result ->
    Cli.dbPath result = Cli.dbPath config \/ In (Cli.dbPath result) args.
Proof.
  induction n as [|n IH]; intros args config result Hlen.
  - destruct args; [|simpl in Hlen; lia]. intros [= <-]. now left.
  - destruct args as [|arg rest]; [intros [= <-]; now left|].
    simpl in Hlen. cbn [Cli.parseLoop].
    destruct (JsString.eqb arg (js "--help") || JsString.eqb arg (js "-h")).
    { intros H. apply IH in H; [|lia]. simpl in *. intuition congruence. }
    destruct (JsString.eqb arg (js "--version") || JsString.eqb arg (js "-v")).
    { intros H. apply IH in H; [|lia]. simpl in *. intuition congruence. }
    destruct (JsString.eqb arg (js "--db")
              || JsString.eqb arg (js "--database")).
    + destruct rest as [|value rest]; [discriminate|].
      intros H. apply IH in H; [|simpl in Hlen; lia]. simpl in *. intuition congruence.
    + destruct (JsString.startsWith arg (js "-")); [discriminate|].
      intros H. apply IH in H; [|lia]. simpl in *. intuition congruence.
Qed.

End CommandLine.

(** X15: when the last argument is not an option, it is the database path
    [parseArgs] settles on, whether it stands alone or follows [--db], and
    whatever paths and flags come before it. *)
Theorem last_argument_is_the_path (args : list jsstring) (path : jsstring)
        (env : option jsstring) (config : Cli.Config) :
  JsString.startsWith path (js "-") = false ->
  Cli.parseArgs (args ++ [path]) env = Cli.Parse config ->
  Cli.dbPath config = path.
Proof.
  intros Hp. unfold Cli.parseArgs.
  apply (@parseLoop_last path Hp (length args)). apply Nat.le_refl.
Qed.

Lemma last_argument_is_the_path_witness :
  Cli.dbPath (Cli.mkConfig true false (js "b.db")) = js "b.db".
Proof.
  apply (@last_argument_is_the_path [js "--db"; js "a.db"; js "-h"]
           (js "b.db") (Some (js "c.db"))); reflexivity.
Defined.

(** X16: the path [parseArgs] settles on is never made up: it is the
    environment variable's value, or the default when that is unset or empty,
    or else one of the arguments. *)
Theorem parsed_path_origin (args : list jsstring) (env : option jsstring)
        (config : Cli.Config) :
  Cli.parseArgs args env = Cli.Parse config ->
  Cli.dbPath config = Cli.envOrDefault env \/ In (Cli.dbPath config) args.
Proof.
  unfold Cli.parseArgs. intros H.
  apply (@parseLoop_origin (length args)) in H; [exact H | apply Nat.le_refl].
Qed.

Lemma parsed_path_origin_witness :
  Cli.dbPath (Cli.mkConfig false true (js "./database.db"))
  = Cli.envOrDefault (Some [])
  \/ In (Cli.dbPath (Cli.mkConfig false true (js "./database.db")))
        [js "--version"].
Proof.
  apply (@parsed_path_origin [js "--version"] (Some [])). reflexivity.
Defined.

(** X17: [cli()] runs only when the wrapper is the entry script.  It ends
    the process with status 0 only when the command line parsed and asked for
    help or for the version, and with status 1 only when [parseArgs] gave up
    (on an unknown option or on [--db] without a value, even if help was
    asked for as well) or when [main()] threw.  Apart from [cli()], the
    handlers of [SIGINT] and [SIGTERM] in [index.ts] end the process with
    status 0, after closing the connection if one is held. *)
Theorem cli_exit_status (E : Engine) (direct : bool)
        (started : option JsError) (args : list jsstring)
        (env : option jsstring) (s : store E) :
  (forall code,
      Cli.script direct started args env s = Cli.Exited code ->
      direct = true
      /\ ((code = 0%Z
           /\ exists config,
               Cli.parseArgs args env = Cli.Parse config
               /\ Cli.showHelp config || Cli.showVersion config = true)
          \/ (code = 1%Z
              /\ (Cli.parseArgs args env = Cli.ParseExit 1
                  \/ exists config e,
                      Cli.parseArgs args env = Cli.Parse config
                      /\ Cli.showHelp config || Cli.showVersion config = false
                      /\ started = Some e))))
  /\ (direct = false -> Cli.script direct started args env s = Cli.Imported)
  /\ (forall p : Process E,
         snd (shutdown p) = 0%Z
         /\ calls (fst (shutdown p))
            = calls p ++ (if db p then [CClose] else [])).
Proof.
  split; [|split].
  - intros code. unfold Cli.script. destruct direct; [|discriminate].
    intros H. split; [reflexivity|]. revert H. unfold Cli.cliWith.
    destruct (Cli.parseArgs args env) as [config|c] eqn:Hp.
    + destruct (Cli.showHelp config) eqn:Hh.
      * intros [= <-]. left. split; [reflexivity|]. exists config.
        split; [reflexivity | now rewrite Hh].
      * destruct (Cli.showVersion config) eqn:Hv.
        -- intros [= <-]. left. split; [reflexivity|]. exists config.
           split; [reflexivity | now rewrite Hh, Hv].
        -- destruct started as [e|]; [|discriminate].
           intros [= <-]. right. split; [reflexivity|]. right.
           exists config, e. rewrite Hh, Hv. auto.
    + intros [= <-]. right.
      assert (c = 1%Z) as ->.
      { unfold Cli.parseArgs in Hp.
        apply (@parseLoop_exit (length args)) in Hp;
          [exact Hp | apply Nat.le_refl]. }
      auto.
  - intros ->. reflexivity.
  - intros p. unfold shutdown. simpl. split; [reflexivity|].
    destruct (db p); simpl; [reflexivity | now rewrite app_nil_r].
Qed.

Lemma cli_exit_status_witness :
  true = true
  /\ ((1 = 0 /\ exists config,
          Cli.parseArgs [js "--help"; js "--db"] None = Cli.Parse config
          /\ Cli.showHelp config || Cli.showVersion config = true)%Z
      \/ (1 = 1
          /\ (Cli.parseArgs [js "--help"; js "--db"] None = Cli.ParseExit 1
              \/ exists config (e : JsError),
                  Cli.parseArgs [js "--help"; js "--db"] None = Cli.Parse config
                  /\ Cli.showHelp config || Cli.showVersion config = false
                  /\ None = Some e))%Z).
Proof.
  apply (@cli_exit_status Double.engine true None [js "--help"; js "--db"] None
           (Double.mkStore [] [] None)). reflexivity.
Defined.

(** X18: the arguments have no say in which database the server opens: any
    command line that starts the server leaves the environment variable set
    to the parsed path, has made no driver call, and opens as its first
    connection the path the environment named when [index.ts] was loaded, or
    [./database.db] when it named none. *)
Theorem cli_arguments_do_not_choose_database (E : Engine)
        (args : list jsstring) (env : option jsstring) (s : store E)
        (p : Process E) :
  Cli.cli args env s = Cli.Serving p ->
  (exists config,
      Cli.parseArgs args env = Cli.Parse config
      /\ SQLITE_DB_PATH p = Some (Cli.dbPath config))
  /\ calls p = [] /\ db p = false
  /\ Cli.openedPath (calls (snd (getDatabase p))) = Some (Cli.envOrDefault env).
Proof.
  intros H. split; [|exact (cli_opens_loaded_path _ _ _ H)].
  unfold Cli.cli, Cli.script, Cli.cliWith in H.
  destruct (Cli.parseArgs args env) as [config|c];
    [|discriminate].
  destruct (Cli.showHelp config); [discriminate|].
  destruct (Cli.showVersion config); [discriminate|].
  injection H as <-. exists config. auto.
Qed.

Lemma cli_arguments_do_not_choose_database_witness :
  Cli.openedPath
    (calls (snd (getDatabase
       (mkProcess (E:=Double.engine) (Some (js "/data/app.db"))
                  (js "/data/env.db") false (Double.mkStore [] [] None) []))))
  = Some (js "/data/env.db").
Proof.
  apply (@cli_arguments_do_not_choose_database Double.engine
           [js "/data/app.db"] (Some (js "/data/env.db"))
           (Double.mkStore [] [] None)).
  reflexivity.
Defined.

(** ** The statements of the sample-database script *)

Section SetupScript.
Import JsStringFacts.

Lemma split_nonempty (sep : N) (s : jsstring) : JsSplit.split sep s <> [].
Proof.
  destruct s as [|c s]; simpl; [discriminate|].
  destruct (c =? sep)%N; [discriminate|].
  destruct (JsSplit.split sep s); discriminate.
Qed.

Lemma split_no_separator (sep : N) (s : jsstring) :
  Forall (fun piece => ~ In sep piece) (JsSplit.split sep s).
Proof.
  induction s as [|c s IH]; simpl.
  - repeat constructor. intros [].
  - destruct (N.eqb_spec c sep) as [->|Hc].
    + constructor; [intros []|exact IH].
    + destruct (JsSplit.split sep s) as [|piece pieces].
      * repeat constructor. intros [H|[]]. congruence.
      * inversion IH; subst. constructor; [|assumption].
        intros [H|H]; [congruence|contradiction].
Qed.

(** Joining the pieces with the separator gives the text back. *)
Lemma split_join (sep : N) (s : jsstring) :
  JsString.join [sep] (JsSplit.split sep s) = s.
Proof.
  induction s as [|c s IH]; simpl; [reflexivity|].
  destruct (N.eqb_spec c sep) as [->|Hc].
  - pose proof (split_nonempty sep s) as Hne.
    destruct (JsSplit.split sep s) as [|piece pieces]; [now elim Hne|].
    simpl in *. now rewrite IH.
  - destruct (JsSplit.split sep s) as [|piece pieces] eqn:Hs.
    + now elim (split_nonempty sep s).
    + simpl in *. destruct pieces; simpl in *; now rewrite <- IH.
Qed.

Lemma trimStart_incl (c : N) (s : jsstring) :
  In c (JsString.trimStart s) -> In c s.
Proof.
  destruct (trimStart_spec s) as (l & Hs & _). intros H.
  rewrite Hs. apply in_or_app. now right.
Qed.

Lemma trim_incl (c : N) (s : jsstring) : In c (JsString.trim s) -> In c s.
Proof.
  unfold JsString.trim, JsString.trimEnd. intros H.
  apply trimStart_incl. apply in_rev. apply in_rev in H.
  now apply trimStart_incl in H.
Qed.

End SetupScript.

(** X19: the statements the setup script takes out of the SQL file are never
    empty, hold no semicolon, carry no whitespace at either end, and all pass
    the test [if (statement.trim())] of the loop, which therefore skips
    nothing; and the pieces the file is cut into, joined by semicolons, are
    the file. *)
Theorem setup_statements_are_clean (sql : jsstring) :
  Forall (fun stmt =>
            stmt <> [] /\ ~ In 59%N stmt /\ JsString.trim stmt = stmt
            /\ Setup.guard stmt = true)
         (Setup.statements sql)
  /\ JsString.join (js ";") (JsSplit.split 59 sql) = sql.
Proof.
  split; [|apply split_join].
  unfold Setup.statements. apply Forall_forall. intros stmt Hin.
  apply filter_In in Hin as [Hin Hlen].
  apply in_map_iff in Hin as (piece & <- & Hpiece).
  assert (JsString.trim piece <> []) as Hne.
  { destruct (JsString.trim piece); [discriminate Hlen | discriminate]. }
  pose proof (JsStringFacts.trim_idem piece) as Hid.
  repeat apply conj.
  - exact Hne.
  - intros H. apply trim_incl in H.
    exact (proj1 (Forall_forall _ _) (split_no_separator 59 sql) _ Hpiece H).
  - exact Hid.
  - unfold Setup.guard. rewrite Hid.
    destruct (JsString.trim piece); [now elim Hne | reflexivity].
Qed.

Example setup_statements_example :
  Setup.statements (js "CREATE TABLE a (x); ; INSERT INTO a VALUES (1);
")
  = [js "CREATE TABLE a (x)"; js "INSERT INTO a VALUES (1)"].
Proof. reflexivity. Qed.

(** ** Resources and the [generate-query] prompt *)

Section ResourceFacts.
Context {E : Engine}.

Local Abbreviation Sends := (Sends (E:=E)).

Lemma answered {A} (body : M E A) (handler : JsError -> A) (p : Process E) :
  exists r p', tryCatch body (fun error => ret (handler error)) p = (Ret r, p').
Proof.
  unfold tryCatch, ret. destruct (body p) as [[r|e] p1]; eauto.
Qed.

Ltac reads :=
  repeat first
    [ apply sends_ret | apply sends_throw
    | apply sends_getDatabase; intros ?; exact I
    | apply sends_driver; exact I
    | apply sends_tryCatch; [|intros ?] | apply sends_bind; [|intros ?] ].

(** The process once [getDatabase] has returned. *)
Lemma getDatabase_returns (p : Process E) :
  refused p = None ->
  exists p1, getDatabase p = (Ret tt, p1) /\ disk p1 = disk p.
Proof.
  unfold refused. destruct (db p) eqn:Hdb; intros Hc.
  - exists p. split; [now apply getDatabase_cached | reflexivity].
  - eexists. split; [now apply getDatabase_opens | reflexivity].
Qed.

Lemma getDatabase_refused (p : Process E) (e : JsError) :
  refused p = Some e -> exists p1, getDatabase p = (Throw e, p1).
Proof.
  unfold refused. destruct (db p) eqn:Hdb; [discriminate|]. intros Hc.
  eexists. now apply getDatabase_fails.
Qed.

Ltac failing_read He :=
  let Hr := fresh "Hr" in
  let p1 := fresh "p1" in
  let Hg := fresh "Hg" in
  let Hd := fresh "Hd" in
  unfold readError in He; unfold tryCatch, bind at 1;
  destruct (refused _) eqn:Hr;
  [ injection He as ->; destruct (getDatabase_refused _ Hr) as (p1 & ->);
    reflexivity
  | destruct (getDatabase_returns _ Hr) as (p1 & Hg & Hd); rewrite Hg;
    rewrite <- Hd in He; simpl in He;
    repeat (unfold bind at 1, prepareAll at 1, driver at 1;
            cbn [disk withDisk record];
            match type of He with
            | context [all ?E ?sql [] ?s0] =>
                destruct (all E sql [] s0) as [[?e|?rows] ?s]; simpl in He;
                [injection He as ->; reflexivity|]
            end);
    discriminate ].

Lemma schema_fails (href : jsstring) (p : Process E) (e : JsError) :
  readError [listTablesSql] p = Some e ->
  fst (schemaResource href p)
  = Ret (mkResourceResult
           [(href, Plain (js "Error reading schema: " ++ message e))]).
Proof. intros He. unfold schemaResource. failing_read He. Qed.

Lemma tables_fails (href : jsstring) (p : Process E) (e : JsError) :
  readError [tableNamesSql] p = Some e ->
  fst (tablesResource href p)
  = Ret (mkResourceResult
           [(href, Plain (js "Error reading tables: " ++ message e))]).
Proof. intros He. unfold tablesResource. failing_read He. Qed.

Lemma tableInfo_fails (href tableName : jsstring) (p : Process E)
      (e : JsError) :
  readError [tableInfoSql tableName; indexListSql tableName;
             foreignKeyListSql tableName] p = Some e ->
  fst (tableInfoResource href tableName p)
  = Ret (mkResourceResult
           [(href, Plain (js "Error reading table info: " ++ message e))]).
Proof. intros He. unfold tableInfoResource. failing_read He. Qed.

Lemma schema_reads (href : jsstring) : Sends AllCall (schemaResource href).
Proof.
  unfold schemaResource. apply sends_tryCatch; [|intros ?; apply sends_ret].
  apply sends_bind; [apply sends_getDatabase; intros ?; exact I|]. intros _.
  apply sends_bind; [apply sends_driver; exact I|]. intros tables.
  destruct (Nat.eqb (length tables) 0); apply sends_ret.
Qed.

Lemma tables_reads (href : jsstring) : Sends AllCall (tablesResource href).
Proof. unfold tablesResource. reads. Qed.

Lemma tableInfo_reads (href tableName : jsstring) :
  Sends AllCall (tableInfoResource href tableName).
Proof. unfold tableInfoResource. reads. Qed.

Lemma describeListed_sends (P : DriverCall -> Prop) (tableList : list jsstring) :
  Forall (fun tableName => P (CAll (tableInfoSql tableName) [])) tableList ->
  forall schemaContext, Sends P (describeListed tableList schemaContext).
Proof.
  induction 1 as [|tableName rest Hn _ IH]; intros schemaContext; simpl.
  - apply sends_ret.
  - apply sends_bind; [now apply sends_driver|]. intros columns. apply IH.
Qed.

Lemma describeAll_sends (allTables : list json) :
  forall schemaContext, Sends AllCall (describeAll allTables schemaContext).
Proof.
  induction allTables as [|table rest IH]; intros schemaContext; simpl.
  - apply sends_ret.
  - apply sends_bind; [apply sends_driver; exact I|]. intros columns. apply IH.
Qed.

Lemma generateQuery_reads (requirement : jsstring) (tables : option jsstring) :
  Sends AllCall (generateQueryPrompt requirement tables).
Proof.
  unfold generateQueryPrompt.
  apply sends_tryCatch; [|intros ?; apply sends_ret].
  apply sends_bind; [apply sends_getDatabase; intros ?; exact I|]. intros _.
  apply sends_bind; [|intros ?; apply sends_ret].
  destruct (tablesGiven tables).
  - apply describeListed_sends. apply Forall_forall. intros; exact I.
  - apply sends_bind; [apply sends_driver; exact I|]. intros allTables.
    apply describeAll_sends.
Qed.

Lemma generateQuery_listed (requirement tables : jsstring) :
  tablesGiven (Some tables) = true ->
  Sends (DescribesListed tables)
        (generateQueryPrompt requirement (Some tables)).
Proof.
  intros Hg. unfold generateQueryPrompt. rewrite Hg.
  apply sends_tryCatch; [|intros ?; apply sends_ret].
  apply sends_bind; [apply sends_getDatabase; intros ?; exact I|]. intros _.
  apply sends_bind; [|intros ?; apply sends_ret].
  apply describeListed_sends. apply Forall_forall.
  intros tableName Hin. apply in_map_iff in Hin as (t & <- & Ht).
  simpl. eauto.
Qed.

Lemma schema_answers (href : jsstring) (p : Process E) :
  exists text p',
    schemaResource href p = (Ret (mkResourceResult [(href, text)]), p').
Proof.
  unfold schemaResource, tryCatch, bind at 1.
  destruct (getDatabase p) as [[[]|e] p1]; [|unfold ret, resource; eauto].
  unfold bind. destruct (prepareAll listTablesSql [] p1) as [[tables|e] p2];
    [|unfold ret, resource; eauto].
  destruct (Nat.eqb (length tables) 0); unfold ret, resource; eauto.
Qed.

Lemma tables_answers (href : jsstring) (p : Process E) :
  exists text p',
    tablesResource href p = (Ret (mkResourceResult [(href, text)]), p').
Proof.
  unfold tablesResource, tryCatch, bind at 1.
  destruct (getDatabase p) as [[[]|e] p1]; [|unfold ret, resource; eauto].
  unfold bind. destruct (prepareAll tableNamesSql [] p1) as [[tables|e] p2];
    unfold ret, resource; eauto.
Qed.

Lemma tableInfo_answers (href tableName : jsstring) (p : Process E) :
  exists text p',
    tableInfoResource href tableName p
    = (Ret (mkResourceResult [(href, text)]), p').
Proof.
  unfold tableInfoResource, tryCatch, bind at 1.
  destruct (getDatabase p) as [[[]|e] p1]; [|unfold ret, resource; eauto].
  unfold bind at 1.
  destruct (prepareAll (tableInfoSql tableName) [] p1) as [[columns|e] p2];
    [|unfold ret, resource; eauto].
  unfold bind at 1.
  destruct (prepareAll (indexListSql tableName) [] p2) as [[indexes|e] p3];
    [|unfold ret, resource; eauto].
  unfold bind.
  destruct (prepareAll (foreignKeyListSql tableName) [] p3)
    as [[foreignKeys|e] p4]; unfold ret, resource; eauto.
Qed.

Lemma generateQuery_answers (requirement : jsstring)
      (tables : option jsstring) (p : Process E) :
  exists text p',
    generateQueryPrompt requirement tables p
    = (Ret (mkPromptResult [text]), p').
Proof.
  unfold generateQueryPrompt, tryCatch, bind at 1.
  destruct (getDatabase p) as [[[]|e] p1]; [|unfold ret; eauto].
  unfold bind at 1.
  destruct ((if tablesGiven tables
             then describeListed
                    (map (fun t => JsString.trim t)
                       (JsSplit.split 44
                          match tables with Some t => t | None => [] end)) []
             else bind (prepareAll allTablesSql [])
                       (fun allTables => describeAll allTables [])) p1)
    as [[schemaContext|e] p2]; unfold ret; eauto.
Qed.

Lemma getDatabase_acquires (p p1 : Process E) (r : Result unit) :
  getDatabase p = (r, p1) ->
  acquires p = match r with Ret _ => true | Throw _ => false end.
Proof.
  unfold acquires, getDatabase, initializeDatabase, tryCatch, driver, throw.
  destruct (db p); [now intros [= <- <-]|].
  destruct (connect E (DEFAULT_DB_PATH p) (disk p)); now intros [= <- <-].
Qed.

End ResourceFacts.

(** X20: the three resources never throw, whatever the driver does: each
    answers with exactly one content entry, under the URI it was asked.  When
    the connection is refused or one of the resource's statements fails in
    the driver, the text of that entry is "Error reading schema: ", "Error
    reading tables: " or "Error reading table info: " followed by the message
    of the error.  The only calls the resources make are the opening of the
    connection and [all]: never [run], [get] nor a transaction statement. *)
Theorem resources_answer_and_only_read (E : Engine) (href tableName : jsstring) :
  (forall p : Process E,
      (exists text p',
          schemaResource href p = (Ret (mkResourceResult [(href, text)]), p'))
      /\ (exists text p',
             tablesResource href p = (Ret (mkResourceResult [(href, text)]), p'))
      /\ (exists text p',
             tableInfoResource href tableName p
             = (Ret (mkResourceResult [(href, text)]), p')))
  /\ (forall (p : Process E) (e : JsError),
         (readError [listTablesSql] p = Some e ->
          fst (schemaResource href p)
          = Ret (mkResourceResult
                   [(href, Plain (js "Error reading schema: " ++ message e))]))
         /\ (readError [tableNamesSql] p = Some e ->
             fst (tablesResource href p)
             = Ret (mkResourceResult
                      [(href, Plain (js "Error reading tables: " ++ message e))]))
         /\ (readError [tableInfoSql tableName; indexListSql tableName;
                        foreignKeyListSql tableName] p = Some e ->
             fst (tableInfoResource href tableName p)
             = Ret (mkResourceResult
                      [(href,
                        Plain (js "Error reading table info: " ++ message e))])))
  /\ Sends AllCall (schemaResource (E:=E) href)
  /\ Sends AllCall (tablesResource (E:=E) href)
  /\ Sends AllCall (tableInfoResource (E:=E) href tableName).
Proof.
  split; [|split; [|repeat apply conj]].
  - intros p. repeat apply conj.
    + apply schema_answers.
    + apply tables_answers.
    + apply tableInfo_answers.
  - intros p e. repeat apply conj; intros He.
    + now apply schema_fails.
    + now apply tables_fails.
    + now apply tableInfo_fails.
  - apply schema_reads.
  - apply tables_reads.
  - apply tableInfo_reads.
Qed.

Lemma resources_answer_and_only_read_witness :
  fst (schemaResource (js "sqlite://schema") (Double.fresh (js "/proc/x")))
  = Ret (mkResourceResult
           [(js "sqlite://schema",
             Plain (js "Error reading schema: unable to open database file"))]).
Proof.
  destruct (@resources_answer_and_only_read Double.engine
              (js "sqlite://schema") (js "t")) as (_ & H & _).
  destruct (H (Double.fresh (js "/proc/x"))
              (mkError (js "unable to open database file"))) as (Hs & _).
  apply Hs. reflexivity.
Defined.

(** X21: the [generate-query] prompt never throws: whatever [tables] is, it
    answers with exactly one message; and the only calls it makes are the
    opening of the connection and [all].  Given a list of tables that is not
    blank, the only statements it sends are [PRAGMA table_info(<name>)] for
    names of the comma-separated list, each name trimmed and put in the
    statement as it is. *)
Theorem generate_query_reads_listed_tables (E : Engine)
        (requirement : jsstring) :
  (forall (tables : option jsstring) (p : Process E),
      exists text p',
        generateQueryPrompt requirement tables p
        = (Ret (mkPromptResult [text]), p'))
  /\ (forall tables : option jsstring,
         Sends AllCall (generateQueryPrompt (E:=E) requirement tables))
  /\ (forall tables : jsstring,
         tablesGiven (Some tables) = true ->
         Sends (DescribesListed tables)
               (generateQueryPrompt (E:=E) requirement (Some tables))).
Proof.
  repeat apply conj; intros.
  - apply generateQuery_answers.
  - apply generateQuery_reads.
  - now apply generateQuery_listed.
Qed.

Lemma generate_query_reads_listed_tables_witness :
  Sends (DescribesListed (js "users, orders"))
        (generateQueryPrompt (E:=Double.engine) (js "count users")
                             (Some (js "users, orders"))).
Proof.
  apply (@generate_query_reads_listed_tables Double.engine (js "count users")).
  reflexivity.
Defined.

Example generate_query_example :
  calls (snd (generateQueryPrompt (js "count users") (Some (js "users, orders"))
                                  Double.opened))
  = [ CAll (js "PRAGMA table_info(users)") [];
      CAll (js "PRAGMA table_info(orders)") [] ].
Proof. reflexivity. Qed.

(** ** The calls of [describe-table] *)

(** X22: whatever the driver answers, the calls of [describe-table] are: the
    opening of the connection if none is held and, unless the connection is
    refused, the lookup in [sqlite_master] with the table name as its bound
    parameter; when the lookup fails or finds no row nothing follows it;
    otherwise follow [PRAGMA table_info], [PRAGMA index_list] and [PRAGMA
    foreign_key_list], in that order and with the name written into them as
    it was given, through the first of them that fails: nothing follows a
    call that failed. *)
Theorem describe_table_call_order (E : Engine) (tableName : jsstring)
        (p : Process E) :
  calls (snd (describeTableTool tableName p))
  = calls p ++ opening p
    ++ (if acquires p
        then CGet tableExistsSql [JStr tableName]
             :: match get E tableExistsSql [JStr tableName] (disk p) with
                | (inr row, s1) =>
                    if truthy row
                    then reads [ tableInfoSql tableName;
                                 indexListSql tableName;
                                 foreignKeyListSql tableName ] s1
                    else []
                | (inl _, _) => []
                end
        else []).
Proof.
  unfold describeTableTool, tryCatch, bind at 1.
  destruct (getDatabase p) as [[[]|e0] p1] eqn:Hg;
    destruct (getDatabase_calls p Hg) as (Hc1 & Hd1 & _).
  - rewrite (getDatabase_acquires p Hg).
    unfold bind at 1, prepareGet, driver. rewrite Hd1.
    destruct (get E tableExistsSql [JStr tableName] (disk p))
      as [[e|tableExists] s1].
    + simpl. now rewrite Hc1, <- app_assoc.
    + destruct (truthy tableExists); simpl.
      * unfold bind at 1, prepareAll, driver. simpl.
        destruct (all E (tableInfoSql tableName) [] s1) as [[e|columns] s2].
        { simpl. now rewrite Hc1, <- !app_assoc. }
        unfold bind at 1, driver. simpl.
        destruct (all E (indexListSql tableName) [] s2) as [[e|indexes] s3].
        { simpl. now rewrite Hc1, <- !app_assoc. }
        unfold bind, driver. simpl.
        destruct (all E (foreignKeyListSql tableName) [] s3)
          as [[e|foreignKeys] s4];
          simpl; now rewrite Hc1, <- !app_assoc.
      * now rewrite Hc1, <- app_assoc.
  - rewrite (getDatabase_acquires p Hg). simpl. now rewrite Hc1, app_nil_r.
Qed.
